(** * envier: environment-backed configuration objects

    A shallow embedding of [envier/env.py] and the properties of its
    variable-resolution engine.

    Modelling conventions.
    - Python [str] is [string]; the text is taken to be ASCII, so case
      mapping and white space are those of the ASCII range.  A property
      whose truth rests on the case mapping of a value read from the
      source carries the hypothesis that the value is ASCII
      ([PyStr.isascii]).
    - Runtime values are the closed universe [value] (None, bool, int, str,
      list, tuple, set, dict); floats and user classes are outside of it.
    - A raised exception is a [Raise e] result; warnings and the reads of the
      source mapping are recorded in an event log, so that "a warning was
      emitted" and "this key was looked up" are statements about the log.
    - Class dictionaries and instance dictionaries are insertion-ordered
      association lists, as Python's [dict] is (3.7 and later).
    - A class is a finite tree [EnvClass] of members: a class that nests
      itself, as [include] under a namespace allows, is outside of the
      model.  What [hasattr] finds on the bases of a class is a parameter
      of [Env_include]. *)

From stdpp Require Import gmap strings list fin_maps.
From Stdlib Require Import ZArith Ascii String Lia Sorting.Sorted.

Open Scope string_scope.
Open Scope list_scope.

Set Warnings "-register-all".

(** ** Exceptions and results *)

(** The exception classes the engine raises or lets through.  Only
    [KeyError] keeps its message: the other messages embed [repr] of type
    objects and are never tested by the code itself. *)
Inductive exc : Type :=
| KeyError (msg : string)
| TypeError
| ValueError
| AttributeError
| UserError (tag : string).

Inductive result (A : Type) : Type :=
| Ok (a : A)
| Raise (e : exc).
Arguments Ok {A} a.
Arguments Raise {A} e.

Definition rbind {A B : Type} (r : result A) (k : A -> result B) : result B :=
  match r with
  | Ok a => k a
  | Raise e => Raise e
  end.

#[global] Instance result_ret : MRet result := @Ok.
#[global] Instance result_bind : MBind result := fun A B k r => rbind r k.
#[global] Instance result_fmap : FMap result :=
  fun A B f r => match r with Ok a => Ok (f a) | Raise e => Raise e end.

(** ** Python string methods used by the engine *)
Module PyStr.

Definition is_upper (c : ascii) : bool :=
  let n := nat_of_ascii c in (65 <=? n)%nat && (n <=? 90)%nat.

Definition is_lower (c : ascii) : bool :=
  let n := nat_of_ascii c in (97 <=? n)%nat && (n <=? 122)%nat.

Definition upper_char (c : ascii) : ascii :=
  if is_lower c then ascii_of_nat (nat_of_ascii c - 32) else c.

Definition lower_char (c : ascii) : ascii :=
  if is_upper c then ascii_of_nat (nat_of_ascii c + 32) else c.

Fixpoint map_chars (f : ascii -> ascii) (s : string) : string :=
  match s with
  | EmptyString => EmptyString
  | String c s' => String (f c) (map_chars f s')
  end.

(** [str.upper()] and [str.lower()] on ASCII text: the letters a-z and
    A-Z are mapped, every other character is kept.  (On other text Python
    maps every cased letter, and may change the length.) *)
Definition upper (s : string) : string := map_chars upper_char s.
Definition lower (s : string) : string := map_chars lower_char s.

(** [str.isascii()] *)
Fixpoint isascii (s : string) : bool :=
  match s with
  | EmptyString => true
  | String c s' => (nat_of_ascii c <? 128)%nat && isascii s'
  end.

Fixpoint mem_char (c : ascii) (chars : string) : bool :=
  match chars with
  | EmptyString => false
  | String d chars' => Ascii.eqb c d || mem_char c chars'
  end.

(** [s.rstrip(chars)]: drop the longest suffix made of characters of
    [chars]. *)
Fixpoint rstrip (chars s : string) : string :=
  match s with
  | EmptyString => EmptyString
  | String c s' =>
      match rstrip chars s' with
      | EmptyString => if mem_char c chars then EmptyString else String c EmptyString
      | r => String c r
      end
  end.

Fixpoint lstrip (chars s : string) : string :=
  match s with
  | EmptyString => EmptyString
  | String c s' => if mem_char c chars then lstrip chars s' else s
  end.

(** The ASCII characters for which [str.isspace] holds: tab, line feed,
    vertical tab, form feed, carriage return, the four separators
    0x1c-0x1f and the space. *)
Definition whitespace : string :=
  String (ascii_of_nat 9) (String (ascii_of_nat 10) (String (ascii_of_nat 11)
  (String (ascii_of_nat 12) (String (ascii_of_nat 13) (String (ascii_of_nat 28)
  (String (ascii_of_nat 29) (String (ascii_of_nat 30) (String (ascii_of_nat 31)
  (String (ascii_of_nat 32) EmptyString))))))))).

(** [s.strip()] *)
Definition strip (s : string) : string := lstrip whitespace (rstrip whitespace s).

(** [s.endswith(suffix)] *)
Definition endswith (s suffix : string) : bool :=
  let n := String.length s in
  let m := String.length suffix in
  (m <=? n)%nat && String.eqb (substring (n - m) m s) suffix.

Definition cons_head (c : ascii) (l : list string) : list string :=
  match l with
  | p :: ps => String c p :: ps
  | [] => [String c EmptyString]
  end.

Definition may_split (maxsplit : option nat) : bool :=
  match maxsplit with
  | Some O => false
  | _ => true
  end.

Definition spend (maxsplit : option nat) : option nat :=
  match maxsplit with
  | Some n => Some (Nat.pred n)
  | None => None
  end.

(** Left-to-right scan for non-overlapping occurrences of a non-empty
    [sep].  [skip] counts the characters of a matched separator still to be
    consumed; [maxsplit] is the number of splits still allowed ([None]: no
    limit). *)
Fixpoint split_go (sep s : string) (skip : nat) (maxsplit : option nat) : list string :=
  match s with
  | EmptyString => [EmptyString]
  | String c s' =>
      match skip with
      | S k => split_go sep s' k maxsplit
      | O =>
          if may_split maxsplit && String.prefix sep s
          then EmptyString :: split_go sep s' (String.length sep - 1) (spend maxsplit)
          else cons_head c (split_go sep s' 0 maxsplit)
      end
  end.

(** [s.split(sep)] and [s.split(sep, n)]: an empty separator raises
    [ValueError]. *)
Definition split (s sep : string) (maxsplit : option nat) : result (list string) :=
  match sep with
  | EmptyString => Raise ValueError
  | _ => Ok (split_go sep s 0 maxsplit)
  end.

Fixpoint replace_go (old new s : string) (skip : nat) : string :=
  match s with
  | EmptyString => EmptyString
  | String c s' =>
      match skip with
      | S k => replace_go old new s' k
      | O =>
          if String.prefix old s
          then new +:+ replace_go old new s' (String.length old - 1)
          else String c (replace_go old new s' 0)
      end
  end.

Fixpoint interleave (new s : string) : string :=
  match s with
  | EmptyString => new
  | String c s' => new +:+ String c (interleave new s')
  end.

(** [s.replace(old, new)] *)
Definition replace (s old new : string) : string :=
  match old with
  | EmptyString => interleave new s
  | _ => replace_go old new s 0
  end.

End PyStr.

(** [_normalized] (env.py, lines 34-36). *)
Definition _normalized (name : string) : string :=
  PyStr.rstrip "_" (PyStr.replace (PyStr.upper name) "." "_").


(** ** Runtime values and the built-in classes *)

Inductive value : Type :=
| VNone
| VBool (b : bool)
| VInt (n : Z)
| VStr (s : string)
| VList (xs : list value)
| VTuple (xs : list value)
| VSet (xs : list value)
| VDict (kvs : list (value * value)).

(** The classes a variable can be declared with. *)
Inductive pyclass : Type :=
| CInt | CStr | CBool | CNone | CList | CTuple | CSet | CDict.

(** A declared type: a class, or [typing.Union] of classes (its
    [__args__], in declared order). *)
Inductive pytype : Type :=
| TCls (c : pyclass)
| TUnion (args : list pyclass).

Definition pyclass_eqb (a b : pyclass) : bool :=
  match a, b with
  | CInt, CInt | CStr, CStr | CBool, CBool | CNone, CNone
  | CList, CList | CTuple, CTuple | CSet, CSet | CDict, CDict => true
  | _, _ => false
  end.

Module Builtins.

(** [isinstance(v, c)]; [bool] is a subclass of [int]. *)
Definition isinstance (v : value) (c : pyclass) : bool :=
  match v, c with
  | VNone, CNone => true
  | VBool _, CBool => true
  | VBool _, CInt => true
  | VInt _, CInt => true
  | VStr _, CStr => true
  | VList _, CList => true
  | VTuple _, CTuple => true
  | VSet _, CSet => true
  | VDict _, CDict => true
  | _, _ => false
  end.

(** [isinstance(v, (c1, ..., cn))] *)
Definition isinstance_any (v : value) (cs : list pyclass) : bool :=
  existsb (isinstance v) cs.

(** Whether [hash(v)] succeeds. *)
Fixpoint hashable (v : value) : bool :=
  match v with
  | VNone | VBool _ | VInt _ | VStr _ => true
  | VTuple xs => forallb hashable xs
  | VList _ | VSet _ | VDict _ => false
  end.

Definition as_number (v : value) : option Z :=
  match v with
  | VBool b => Some (if b then 1%Z else 0%Z)
  | VInt n => Some n
  | _ => None
  end.

(** [a == b] on hashable values, as used for dictionary keys and set
    members: [True == 1], tuples compare element by element. *)
Fixpoint key_eq (a b : value) : bool :=
  match a, b with
  | VNone, VNone => true
  | VStr s, VStr t => String.eqb s t
  | VTuple xs, VTuple ys =>
      (fix all2 (xs ys : list value) : bool :=
         match xs, ys with
         | [], [] => true
         | x :: xs', y :: ys' => key_eq x y && all2 xs' ys'
         | _, _ => false
         end) xs ys
  | _, _ =>
      match as_number a, as_number b with
      | Some m, Some n => Z.eqb m n
      | _, _ => false
      end
  end.

(** [d[k] = v] on an insertion-ordered dictionary: an existing key keeps
    its position (and its key object) and takes the new value. *)
Fixpoint assoc_set {K V : Type} (eqb : K -> K -> bool)
    (d : list (K * V)) (k : K) (v : V) : list (K * V) :=
  match d with
  | [] => [(k, v)]
  | (k', v') :: d' =>
      if eqb k' k then (k', v) :: d' else (k', v') :: assoc_set eqb d' k v
  end.

Fixpoint assoc_get {K V : Type} (eqb : K -> K -> bool)
    (d : list (K * V)) (k : K) : option V :=
  match d with
  | [] => None
  | (k', v') :: d' => if eqb k' k then Some v' else assoc_get eqb d' k
  end.

Fixpoint assoc_del {K V : Type} (eqb : K -> K -> bool)
    (d : list (K * V)) (k : K) : list (K * V) :=
  match d with
  | [] => []
  | (k', v') :: d' =>
      if eqb k' k then d' else (k', v') :: assoc_del eqb d' k
  end.

(** [s.add(x)]; the list keeps first occurrences, in arrival order. *)
Definition set_add (xs : list value) (x : value) : list value :=
  if existsb (key_eq x) xs then xs else xs ++ [x].

(** Iterating a [str]: its characters, as one-character strings. *)
Fixpoint chars (s : string) : list string :=
  match s with
  | EmptyString => []
  | String c s' => String c EmptyString :: chars s'
  end.

(** [list(it)], [tuple(it)] and [set(it)] where [it] yields [f x] for the
    [x] of [items], lazily: the first failing element ends the
    construction, and a set hashes each element as it arrives. *)
Fixpoint collect (f : string -> result value) (items : list string) : result (list value) :=
  match items with
  | [] => Ok []
  | x :: rest =>
      y ← f x;
      ys ← collect f rest;
      Ok (y :: ys)
  end.

Fixpoint collect_set (f : string -> result value) (items : list string)
    (acc : list value) : result (list value) :=
  match items with
  | [] => Ok acc
  | x :: rest =>
      y ← f x;
      if hashable y then collect_set f rest (set_add acc y) else Raise TypeError
  end.

Definition is_digit (c : ascii) : bool :=
  let n := nat_of_ascii c in (48 <=? n)%nat && (n <=? 57)%nat.

Definition digit_val (c : ascii) : Z := Z.of_nat (nat_of_ascii c - 48).

(** Decimal digits, single underscores allowed between two digits. *)
Fixpoint parse_digits (s : string) (acc : Z) (after_digit : bool) : option Z :=
  match s with
  | EmptyString => if after_digit then Some acc else None
  | String c s' =>
      if is_digit c then parse_digits s' (10 * acc + digit_val c)%Z true
      else if Ascii.eqb c "_" && after_digit then parse_digits s' acc false
      else None
  end.

(** The white space that [int] skips around the digits of an ASCII string:
    tab, line feed, vertical tab, form feed, carriage return and space.
    The separators 0x1c-0x1f, which [str.strip] removes, are not skipped. *)
Definition int_whitespace : string :=
  String (ascii_of_nat 9) (String (ascii_of_nat 10) (String (ascii_of_nat 11)
  (String (ascii_of_nat 12) (String (ascii_of_nat 13) (String (ascii_of_nat 32)
  EmptyString))))).

(** [sys.int_info.default_max_str_digits]: the interpreter's limit on the
    number of digits of a decimal string, at its default. *)
Definition max_str_digits : Z := 4300.

Fixpoint count_digits (s : string) : Z :=
  match s with
  | EmptyString => 0
  | String c s' => ((if is_digit c then 1 else 0) + count_digits s')%Z
  end.

(** [int(s)] for a string [s]: surrounding white space is ignored, then an
    optional sign and the digits, no more of them than the limit.  [None]
    is a [ValueError]. *)
Definition int_of_str (s : string) : option Z :=
  let digits (ds : string) : option Z :=
    if (max_str_digits <? count_digits ds)%Z then None else parse_digits ds 0 false in
  match PyStr.lstrip int_whitespace (PyStr.rstrip int_whitespace s) with
  | String "+" ds => digits ds
  | String "-" ds => Z.opp <$> digits ds
  | ds => digits ds
  end.

(** [c(raw)]: calling a built-in class on a string. *)
Definition call_class (c : pyclass) (raw : string) : result value :=
  match c with
  | CInt =>
      match int_of_str raw with
      | Some n => Ok (VInt n)
      | None => Raise ValueError
      end
  | CStr => Ok (VStr raw)
  | CBool => Ok (VBool (negb (String.eqb raw "")))
  | CNone => Raise TypeError
  | CList => VList <$> collect (fun s => Ok (VStr s)) (chars raw)
  | CTuple => VTuple <$> collect (fun s => Ok (VStr s)) (chars raw)
  | CSet => VSet <$> collect_set (fun s => Ok (VStr s)) (chars raw) []
  | CDict =>
      match raw with
      | EmptyString => Ok (VDict [])
      | _ => Raise ValueError
      end
  end.

(** [t(raw)] for a declared type: a [typing.Union] cannot be
    instantiated. *)
Definition call_type (t : pytype) (raw : string) : result value :=
  match t with
  | TCls c => call_class c raw
  | TUnion _ => Raise TypeError
  end.

End Builtins.

(** ** Effects: the event log *)

Inductive event : Type :=
| EvGet (key : string)      (* [source.get(key)] *)
| EvWarn (msg : string).    (* [warnings.warn(msg, DeprecationWarning)] *)

(** A computation emits events and returns or raises; the events emitted
    before an exception stay in the log. *)
Definition M (A : Type) : Type := (list event * result A)%type.

#[global] Instance M_ret : MRet M := fun A a => ([], Ok a).
#[global] Instance M_bind : MBind M := fun A B k m =>
  match m with
  | (l, Ok a) => let '(l', r) := k a in (l ++ l', r)
  | (l, Raise e) => (l, Raise e)
  end.

Definition lift {A : Type} (r : result A) : M A := ([], r).
Definition raise {A : Type} (e : exc) : M A := ([], Raise e).
Definition warn (msg : string) : M unit := ([EvWarn msg], Ok tt).

(** [source.get(key)] *)
Definition source_get (source : gmap string string) (key : string) : M (option string) :=
  ([EvGet key], Ok (source !! key)).

Definition events {A : Type} (m : M A) : list event := fst m.
Definition outcome {A : Type} (m : M A) : result A := snd m.

(** ** Configuration objects *)

(** The class attributes of [Env] (lines 215-219), as seen from a schema or
    through one of its instances. *)
Record settings : Type := Settings {
  __truthy__ : gset string;
  __prefix__ : string;
  __item__ : option string;
  __item_separator__ : string;
  __value_separator__ : string
}.

(** The defaults of the base class. *)
Definition Env_settings : settings :=
  {| __truthy__ := {[ "1"; "true"; "yes"; "on" ]};
     __prefix__ := "";
     __item__ := None;
     __item_separator__ := ",";
     __value_separator__ := ":" |}.

(** An instance: the source mapping, the full prefix, the class attributes
    it inherits and the attributes assigned during construction.  The
    back-reference to the parent is not kept: the engine reads the parent's
    full prefix only when the child is constructed.  The names assigned from
    a schema are taken to differ from the attributes the constructor sets
    for itself ([source], [parent], [_full_prefix], [spec]) and from the
    class attributes above, so that the two kinds are kept apart. *)
Inductive attr : Type :=
| AVal (v : value)
| AEnv (i : instance)
with instance : Type :=
| Instance (source : gmap string string) (_full_prefix : string)
    (cls_settings : settings) (attrs : list (string * attr)).

Definition source (i : instance) : gmap string string :=
  match i with Instance s _ _ _ => s end.
Definition _full_prefix (i : instance) : string :=
  match i with Instance _ p _ _ => p end.
Definition cls_settings (i : instance) : settings :=
  match i with Instance _ _ k _ => k end.
Definition attrs (i : instance) : list (string * attr) :=
  match i with Instance _ _ _ a => a end.

(** [getattr(i, name)] and [setattr(i, name, a)] on the assigned
    attributes. *)
Definition getattr (i : instance) (name : string) : option attr :=
  Builtins.assoc_get String.eqb (attrs i) name.

Definition setattr (i : instance) (name : string) (a : attr) : instance :=
  match i with
  | Instance s p k xs => Instance s p k (Builtins.assoc_set String.eqb xs name a)
  end.

(** ** Variable descriptors *)

(** [NoDefault] is the sentinel instance of [NoDefaultType]. *)
Inductive default_t : Type :=
| NoDefault
| Default (v : value).

(** [MapType]: a one-argument callable for collections, a two-argument
    callable returning a pair for dictionaries. *)
Inductive MapType : Type :=
| Map1 (f : string -> result value)
| Map2 (f : string -> string -> result (value * value)).

(** [DeprecationInfo]: name, deprecated-in version, removed-in version
    (either version may be [None]). *)
Abbreviation DeprecationInfo := (string * option string * option string)%type.

Module EnvVariable.
Record t : Type := Make {
  type : pytype;
  name : string;
  parser : option (string -> result value);
  validator : option (value -> result unit);
  map : option MapType;
  default : default_t;
  deprecations : option (list DeprecationInfo);
  help : option string;
  help_type : option string;
  help_default : option string
}.
End EnvVariable.

(** [_check_type] (lines 39-44) *)
Definition _check_type (v : value) (_type : pytype) : bool :=
  match _type with
  | TUnion args => Builtins.isinstance_any v args
  | TCls c => Builtins.isinstance v c
  end.

(** [isinstance(default, ...)], the sentinel being an instance of none of
    the modelled classes. *)
Definition default_isinstance (d : default_t) (c : pyclass) : bool :=
  match d with
  | NoDefault => false
  | Default v => Builtins.isinstance v c
  end.

Definition default_isinstance_any (d : default_t) (cs : list pyclass) : bool :=
  match d with
  | NoDefault => false
  | Default v => Builtins.isinstance_any v cs
  end.

Definition is_NoDefault (d : default_t) : bool :=
  match d with
  | NoDefault => true
  | Default _ => false
  end.

(** [EnvVariable.__init__] (lines 48-80) *)
Definition EnvVariable_init (type : pytype) (name : string)
    (parser : option (string -> result value))
    (validator : option (value -> result unit))
    (map : option MapType) (default : default_t)
    (deprecations : option (list DeprecationInfo))
    (help help_type help_default : option string) : result EnvVariable.t :=
  let self :=
    EnvVariable.Make type name parser validator map default deprecations
      help help_type help_default in
  match type with
  | TUnion args =>
      if negb (default_isinstance_any default args) then Raise TypeError
      else Ok self
  | TCls c =>
      if negb (is_NoDefault default) && negb (default_isinstance default c)
      then Raise TypeError
      else Ok self
  end.

(** The warning text of lines 93-110. *)
Definition deprecation_message (full_deprecated_name : string)
    (deprecated_when removed_when : option string) (full_name : string) : string :=
  let deprecated_when_message :=
    match deprecated_when with
    | Some w => " in version " +:+ w
    | None => ""
    end in
  let removed_when_message :=
    match removed_when with
    | Some w => " and will be removed in version " +:+ w
    | None => ""
    end in
  full_deprecated_name +:+ " has been deprecated" +:+ deprecated_when_message
    +:+ removed_when_message +:+ ". Use " +:+ full_name +:+ " instead".

(** The loop of lines 89-113: the value left in [raw] when it ends. *)
Fixpoint scan_deprecations (source : gmap string string) (prefix full_name : string)
    (deprecations : list DeprecationInfo) : M (option string) :=
  match deprecations with
  | [] => mret None
  | (name, deprecated_when, removed_when) :: rest =>
      let full_deprecated_name := prefix +:+ _normalized name in
      raw ← source_get source full_deprecated_name;
      match raw with
      | Some r =>
          _ ← warn (deprecation_message full_deprecated_name
                      deprecated_when removed_when full_name);
          mret (Some r)
      | None => scan_deprecations source prefix full_name rest
      end
  end.

(** The elements handed to the collection constructor (line 135):
    the pieces themselves, or [map(self.map, collection)]; a two-argument
    callable fails on its first call. *)
Definition element_of (map : option MapType) : string -> result value :=
  match map with
  | None => fun s => Ok (VStr s)
  | Some (Map1 f) => f
  | Some (Map2 _) => fun _ => Raise TypeError
  end.

(** [dict(_.split(value_separator, 1) for _ in items)] (lines 137-140):
    every item must split in exactly two. *)
Fixpoint dict_of_items (value_separator : string) (items : list string)
    (d : list (string * string)) : result (list (string * string)) :=
  match items with
  | [] => Ok d
  | item :: rest =>
      kv ← PyStr.split item value_separator (Some 1);
      match kv with
      | [k; v] => dict_of_items value_separator rest (Builtins.assoc_set String.eqb d k v)
      | _ => Raise ValueError
      end
  end.

(** Line 142: the dictionary rebuilt from [self.map] called on the key
    and the value of each item of [d], in order. *)
Fixpoint dict_of_mapped (map : MapType) (items : list (string * string))
    (d : list (value * value)) : result (list (value * value)) :=
  match items with
  | [] => Ok d
  | (k, v) :: rest =>
      match map with
      | Map2 f =>
          kv ← f k v;
          if Builtins.hashable kv.1
          then dict_of_mapped map rest (Builtins.assoc_set Builtins.key_eq d kv.1 kv.2)
          else Raise TypeError
      | Map1 _ => Raise TypeError
      end
  end.

Definition str_dict (d : list (string * string)) : value :=
  VDict ((fun kv => (VStr kv.1, VStr kv.2)) <$> d).

(** The loop of lines 149-153: the first alternative whose constructor
    does not raise [TypeError] ends it; [otherwise] is what follows the
    loop. *)
Fixpoint try_union (args : list pyclass) (raw : string)
    (otherwise : result value) : result value :=
  match args with
  | [] => otherwise
  | t :: rest =>
      match Builtins.call_class t raw with
      | Raise TypeError => try_union rest raw otherwise
      | r => r
      end
  end.

(** Lines 121-155 of [_retrieve]: what becomes of a raw string. *)
Definition coerce (self : EnvVariable.t) (env : instance) (raw : string) : result value :=
  let type := EnvVariable.type self in
  let cfg := cls_settings env in
  match EnvVariable.parser self with
  | Some parser =>
      parsed ← parser raw;
      if negb (_check_type parsed type) then Raise TypeError else Ok parsed
  | None =>
      match type with
      | TCls CBool => Ok (VBool (bool_decide (PyStr.lower raw ∈ __truthy__ cfg)))
      | TCls CList =>
          collection ← PyStr.split raw (__item_separator__ cfg) None;
          VList <$> Builtins.collect (element_of (EnvVariable.map self)) collection
      | TCls CTuple =>
          collection ← PyStr.split raw (__item_separator__ cfg) None;
          VTuple <$> Builtins.collect (element_of (EnvVariable.map self)) collection
      | TCls CSet =>
          collection ← PyStr.split raw (__item_separator__ cfg) None;
          VSet <$> Builtins.collect_set (element_of (EnvVariable.map self)) collection []
      | TCls CDict =>
          items ← PyStr.split raw (__item_separator__ cfg) None;
          d ← dict_of_items (__value_separator__ cfg) items [];
          match EnvVariable.map self with
          | Some map => VDict <$> dict_of_mapped map d []
          | None => Ok (str_dict d)
          end
      | _ =>
          if _check_type (VStr raw) type then Ok (VStr raw)
          else
            match type with
            | TUnion args => try_union args raw (Builtins.call_type type raw)
            | TCls _ => Builtins.call_type type raw
            end
      end
  end.

(** [self.deprecations], [None] read as the empty list (both are falsy on
    line 88). *)
Definition deprecations_list (deprecations : option (list DeprecationInfo)) : list DeprecationInfo :=
  match deprecations with
  | Some l => l
  | None => []
  end.

(** [EnvVariable._retrieve] (lines 82-155) *)
Definition _retrieve (self : EnvVariable.t) (env : instance) (prefix : string) : M value :=
  let source := source env in
  let full_name := prefix +:+ _normalized (EnvVariable.name self) in
  raw ← source_get source full_name;
  raw ← match raw, deprecations_list (EnvVariable.deprecations self) with
        | None, (_ :: _) as deprecations =>
            scan_deprecations source prefix full_name deprecations
        | _, _ => mret raw
        end;
  match raw with
  | None =>
      match EnvVariable.default self with
      | Default d => mret d
      | NoDefault => raise (KeyError (full_name +:+ " is not set"))
      end
  | Some raw => lift (coerce self env raw)
  end.

(** [EnvVariable.__call__] (lines 157-164) *)
Definition EnvVariable_call (self : EnvVariable.t) (env : instance) (prefix : string) : M value :=
  value ← _retrieve self env prefix;
  match EnvVariable.validator self with
  | Some validator => _ ← lift (validator value); mret value
  | None => mret value
  end.

(** ** Derived variables *)

Module DerivedVariable.
Record t : Type := Make {
  type : pytype;
  derivation : instance -> result value
}.
End DerivedVariable.

(** [DerivedVariable.__call__] (lines 173-182) *)
Definition DerivedVariable_call (self : DerivedVariable.t) (env : instance) : result value :=
  value ← DerivedVariable.derivation self env;
  if negb (_check_type value (DerivedVariable.type self)) then Raise TypeError
  else Ok value.

(** ** Schemas *)

(** A subclass of [Env]: its class attributes and its own [__dict__], in
    declaration order.  [MOther] stands for any entry that is neither a
    variable, a derived variable nor a nested [Env] subclass. *)
Inductive EnvClass : Type :=
| Class (cfg : settings) (class_dict : list (string * member))
with member : Type :=
| MVar (e : EnvVariable.t)
| MEnv (e : EnvClass)
| MDer (e : DerivedVariable.t)
| MOther.

Definition cfg (cls : EnvClass) : settings :=
  match cls with Class k _ => k end.
Definition class_dict (cls : EnvClass) : list (string * member) :=
  match cls with Class _ d => d end.

(** [source or os.environ] (line 223): [None] and the empty mapping are
    both falsy. *)
Definition source_or (source : option (gmap string string))
    (environ : gmap string string) : gmap string string :=
  match source with
  | Some m => if decide (m = ∅) then environ else m
  | None => environ
  end.

(** Lines 226-232. *)
Definition init_full_prefix (parent : option instance) (prefix : string) : string :=
  let p :=
    (match parent with
     | Some parent => _full_prefix parent
     | None => ""
     end) +:+ _normalized prefix in
  if negb (String.eqb p "") && negb (PyStr.endswith p "_") then p +:+ "_" else p.

(** Lines 240-244: the attribute a nested class is assigned to. *)
Definition item_name (name : string) (e : EnvClass) : string :=
  match __item__ (cfg e) with
  | Some item => if negb (String.eqb item name) then item else name
  | None => name
  end.

Section Init.

(** [construct e self] is the call [e(source, self)] of line 245. *)
Variable construct : EnvClass -> instance -> M instance.

(** The loop of lines 236-247, over the copied items of the class
    dictionary.  (Lines 242-243 also move the nested class to its
    [__item__] name in the class dictionary; that changes the schema for
    later uses, not the instance under construction.) *)
Fixpoint init_members (items : list (string * member)) (self : instance)
    (derived : list (string * DerivedVariable.t))
    : M (instance * list (string * DerivedVariable.t)) :=
  match items with
  | [] => mret (self, derived)
  | (name, e) :: rest =>
      match e with
      | MVar e =>
          x ← EnvVariable_call e self (_full_prefix self);
          init_members rest (setattr self name (AVal x)) derived
      | MEnv e =>
          child ← construct e self;
          init_members rest (setattr self (item_name name e) (AEnv child)) derived
      | MDer e => init_members rest self (derived ++ [(name, e)])
      | MOther => init_members rest self derived
      end
  end.

End Init.

(** The loop of lines 249-250. *)
Fixpoint init_derived (derived : list (string * DerivedVariable.t))
    (self : instance) : M instance :=
  match derived with
  | [] => mret self
  | (n, d) :: rest =>
      x ← lift (DerivedVariable_call d self);
      init_derived rest (setattr self n (AVal x))
  end.

(** [Env.__init__] (lines 221-250); [environ] is [os.environ]. *)
Fixpoint Env_init (environ : gmap string string) (cls : EnvClass)
    (source : option (gmap string string)) (parent : option instance) : M instance :=
  let self :=
    Instance (source_or source environ)
      (init_full_prefix parent (__prefix__ (cfg cls))) (cfg cls) [] in
  st ← init_members
         (fun e self => Env_init environ e source (Some self))
         (class_dict cls) self [];
  init_derived st.2 st.1.

(** ** Reflection: [help_info] *)

Abbreviation HelpInfo := (string * string * string * string)%type.

(** [sorted(l, key=key)]: a stable sort on string keys. *)
Fixpoint insert_by {A : Type} (key : A -> string) (x : A) (l : list A) : list A :=
  match l with
  | [] => [x]
  | y :: l' =>
      if String.ltb (key x) (key y) then x :: l else y :: insert_by key x l'
  end.

Definition sorted {A : Type} (key : A -> string) (l : list A) : list A :=
  fold_left (fun acc x => insert_by key x acc) l [].

(** [l.pop()]: the last element and what is left. *)
Definition pop {A : Type} (l : list A) : option (list A * A) :=
  match reverse l with
  | [] => None
  | x :: r => Some (reverse r, x)
  end.

(** [Env.values] (lines 330-340) *)
Definition Env_values (cls : EnvClass) : list member :=
  List.filter (fun m => match m with MOther => false | _ => true end)
              (snd <$> class_dict cls).

Definition class_name (c : pyclass) : string :=
  match c with
  | CInt => "int"
  | CStr => "str"
  | CBool => "bool"
  | CNone => "NoneType"
  | CList => "list"
  | CTuple => "tuple"
  | CSet => "set"
  | CDict => "dict"
  end.

(** [x or y] on an optional string: [None] and the empty string are
    falsy. *)
Definition truthy_str (o : option string) : option string :=
  match o with
  | Some EmptyString => None
  | _ => o
  end.

(** The number of classes of a schema tree. *)
Fixpoint class_count (cls : EnvClass) : nat :=
  match cls with
  | Class _ d =>
      S ((fix go (d : list (string * member)) : nat :=
            match d with
            | [] => 0
            | (_, MEnv e) :: r => class_count e + go r
            | _ :: r => go r
            end) d)
  end.

Section Interpreter.

(** What the interpreter provides and the engine only calls: [str(v)] on a
    value, and the [__name__] of a [typing.Union] (an [AttributeError] on
    the interpreters that have none). *)
Variable str_value : value -> string.
Variable union_name : list pyclass -> result string.

(** [NoDefaultType.__str__] (lines 17-19) and [str] of any other
    default. *)
Definition str_default (d : default_t) : string :=
  match d with
  | NoDefault => ""
  | Default v => str_value v
  end.

Definition type_name (t : pytype) : result string :=
  match t with
  | TCls c => Ok (class_name c)
  | TUnion args => union_name args
  end.

(** One entry of [add_entries] (lines 399-411). *)
Definition help_entry (full_prefix : string) (v : EnvVariable.t) : result HelpInfo :=
  let help_message :=
    match EnvVariable.help v with
    | Some h => PyStr.strip h
    | None => ""
    end in
  let help_message :=
    if negb (String.eqb help_message "") && negb (PyStr.endswith help_message ".")
    then help_message +:+ "."
    else help_message in
  display_type ←
    match truthy_str (EnvVariable.help_type v) with
    | Some t => Ok t
    | None => n ← type_name (EnvVariable.type v); Ok ("``" +:+ n +:+ "``")
    end;
  let display_default :=
    match truthy_str (EnvVariable.help_default v) with
    | Some d => d
    | None => str_default (EnvVariable.default v)
    end in
  Ok ("``" +:+ full_prefix +:+ _normalized (EnvVariable.name v) +:+ "``",
      display_type, display_default, help_message).

Definition env_variables (ms : list member) : list EnvVariable.t :=
  omap (fun m => match m with MVar v => Some v | _ => None end) ms.

Fixpoint help_entries (full_prefix : string) (vars : list EnvVariable.t)
    (entries : list HelpInfo) : result (list HelpInfo) :=
  match vars with
  | [] => Ok entries
  | v :: rest =>
      e ← help_entry full_prefix v;
      help_entries full_prefix rest (entries ++ [e])
  end.

(** [add_entries] (lines 391-411): the entries list after the call. *)
Definition add_entries (full_prefix : string) (config : EnvClass)
    (entries : list HelpInfo) : result (list HelpInfo) :=
  let vars := sorted EnvVariable.name (env_variables (Env_values config)) in
  help_entries full_prefix vars entries.

(** The generator of lines 427-430. *)
Definition nested_configs (new_prefix : string) (config : EnvClass)
    : list (string * EnvClass) :=
  omap (fun kv =>
          match kv with
          | (k, MEnv v) => if negb (String.eqb k "parent") then Some (new_prefix, v) else None
          | _ => None
          end) (class_dict config).

(** The loop of lines 415-434; [fuel] bounds the number of iterations and
    [None] reports that it ran out with configurations left. *)
Fixpoint help_loop (fuel : nat) (recursive : bool)
    (configs : list (string * EnvClass)) (entries : list HelpInfo)
    : option (result (list HelpInfo)) :=
  match pop configs with
  | None => Some (Ok entries)
  | Some (configs, (full_prefix, config)) =>
      match fuel with
      | O => None
      | S fuel =>
          let new_prefix := full_prefix +:+ _normalized (__prefix__ (cfg config)) in
          let new_prefix :=
            if negb (PyStr.endswith new_prefix "_") then new_prefix +:+ "_"
            else new_prefix in
          match add_entries new_prefix config entries with
          | Raise e => Some (Raise e)
          | Ok entries =>
              if negb recursive then Some (Ok entries)
              else
                let subconfigs :=
                  sorted (fun c => __prefix__ (cfg c.2)) (nested_configs new_prefix config) in
                help_loop fuel recursive (subconfigs ++ configs) entries
          end
      end
  end.

(** [Env.help_info] (lines 377-436).  One iteration is spent per class of
    the tree, so [class_count cls] iterations are enough
    ([help_loop_terminates] below). *)
Definition help_info (cls : EnvClass) (recursive : bool) : result (list HelpInfo) :=
  default (Ok []) (help_loop (class_count cls) recursive [("", cls)] []).

End Interpreter.

(** ** Auxiliary definitions for the statements *)

(** The key under which a deprecated alias is looked up (line 90). *)
Definition deprecated_key (prefix : string) (d : DeprecationInfo) : string :=
  prefix +:+ _normalized d.1.1.

Definition is_TypeError {A : Type} (r : result A) : bool :=
  match r with
  | Raise TypeError => true
  | _ => false
  end.

(** The raw string a retrieval works with: the value under the primary
    key, or else under the first deprecated name that is set. *)
Fixpoint first_alias (source : gmap string string) (prefix : string)
    (deprecations : list DeprecationInfo) : option string :=
  match deprecations with
  | [] => None
  | d :: rest =>
      match source !! deprecated_key prefix d with
      | Some raw => Some raw
      | None => first_alias source prefix rest
      end
  end.

Definition raw_value (self : EnvVariable.t) (env : instance) (prefix : string)
    : option string :=
  match source env !! (prefix +:+ _normalized (EnvVariable.name self)) with
  | Some raw => Some raw
  | None =>
      first_alias (source env) prefix (deprecations_list (EnvVariable.deprecations self))
  end.

(** [s[n:]] *)
Fixpoint drop_chars (n : nat) (s : string) : string :=
  match n, s with
  | S n', String _ s' => drop_chars n' s'
  | _, _ => s
  end.

#[global] Arguments _normalized : simpl never.
#[global] Arguments deprecation_message : simpl never.
#[global] Arguments coerce : simpl never.


Section FirstPass.
Variable construct : EnvClass -> instance -> M instance.

(** The first pass as the specification words it: every variable
    descriptor and every nested schema, in order, and nothing else. *)
Fixpoint first_pass (items : list (string * member)) (self : instance) : M instance :=
  match items with
  | [] => mret self
  | (name, MVar e) :: rest =>
      x ← EnvVariable_call e self (_full_prefix self);
      first_pass rest (setattr self name (AVal x))
  | (name, MEnv e) :: rest =>
      child ← construct e self;
      first_pass rest (setattr self (item_name name e) (AEnv child))
  | _ :: rest => first_pass rest self
  end.
End FirstPass.

(** The derived variables of a class dictionary, in declaration order. *)
Definition derived_members (items : list (string * member))
    : list (string * DerivedVariable.t) :=
  omap (fun nm => match nm.2 with MDer d => Some (nm.1, d) | _ => None end) items.

(** The attribute a member is assigned to. *)
Definition attr_name (name : string) (m : member) : option string :=
  match m with
  | MVar _ | MDer _ => Some name
  | MEnv e => Some (item_name name e)
  | MOther => None
  end.

(** The nested classes of a class dictionary. *)
Definition nested_classes (d : list (string * member)) : list EnvClass :=
  omap (fun nm => match nm.2 with MEnv e => Some e | _ => None end) d.


(** What construction leaves untouched: the source, the full prefix and the
    class attributes; and attributes are never removed. *)
Definition same_frame (i j : instance) : Prop :=
  source j = source i /\ _full_prefix j = _full_prefix i
  /\ cls_settings j = cls_settings i
  /\ forall n, is_Some (getattr i n) -> is_Some (getattr j n).


(** ** Event projections, [keys], [include] and auxiliary definitions *)

(** What [_normalized] does to one character: upper-case it, then turn a
    dot into an underscore. *)
Definition normalize_char (c : ascii) : ascii :=
  let u := PyStr.upper_char c in
  if Ascii.eqb u "." then "_"%char else u.


(** The keys looked up and the warnings emitted, in order. *)
Definition lookups (l : list event) : list string :=
  omap (fun e => match e with EvGet k => Some k | EvWarn _ => None end) l.

Definition warnings (l : list event) : list string :=
  omap (fun e => match e with EvWarn m => Some m | EvGet _ => None end) l.

(** The events of the loop of lines 89-113: one lookup per deprecated name
    up to the first that is set, then the warning. *)
Fixpoint scanned (src : gmap string string) (prefix full_name : string)
    (deps : list DeprecationInfo) : list event :=
  match deps with
  | [] => []
  | (name, deprecated_when, removed_when) :: rest =>
      EvGet (prefix +:+ _normalized name)
        :: match src !! (prefix +:+ _normalized name) with
           | Some _ =>
               [EvWarn (deprecation_message (prefix +:+ _normalized name)
                          deprecated_when removed_when full_name)]
           | None => scanned src prefix full_name rest
           end
  end.

(** The test of lines 325-327, 337-339 and 364-366. *)
Definition is_member (m : member) : bool :=
  match m with
  | MOther => false
  | _ => true
  end.

(** [Env.keys] (lines 318-328) *)
Definition Env_keys (cls : EnvClass) : list string :=
  fst <$> List.filter (fun kv => is_member kv.2) (class_dict cls).

(** [k in d] on a class dictionary. *)
Definition has_key (d : list (string * member)) (k : string) : bool :=
  existsb (fun kv => String.eqb kv.1 k) d.

(** [setattr(cls, k, v)] *)
Definition setattr_class (cls : EnvClass) (k : string) (v : member) : EnvClass :=
  Class (cfg cls) (Builtins.assoc_set String.eqb (class_dict cls) k v).

Section Include.

(** [inherited name]: whether [name] is found on the bases or the
    metaclass of the class ([keys], [include], [__prefix__], ...), which is
    what [hasattr] sees beyond the class's own dictionary. *)
Variable inherited : string -> bool.

Definition hasattr_class (cls : EnvClass) (name : string) : bool :=
  has_key (class_dict cls) name || inherited name.

(** The dictionary comprehension of lines 361-367. *)
Definition to_include (env_spec : EnvClass) : list (string * member) :=
  List.filter (fun kv => is_member kv.2) (class_dict env_spec).

(** [Env.include] (lines 342-375): the class as the call leaves it, or the
    [ValueError]. *)
Definition Env_include (cls env_spec : EnvClass) (namespace : option string)
    (overwrite : bool) : result EnvClass :=
  match namespace with
  | Some namespace =>
      if negb overwrite && hasattr_class cls namespace then Raise ValueError
      else Ok (setattr_class cls namespace (MEnv env_spec))
  | None =>
      let to_include := to_include env_spec in
      if negb overwrite && existsb (fun kv => has_key (class_dict cls) kv.1) to_include
      then Raise ValueError
      else Ok (fold_left (fun c kv => setattr_class c kv.1 kv.2) to_include cls)
  end.

End Include.

(** [getattr] on a class dictionary. *)
Definition class_get (cls : EnvClass) (k : string) : option member :=
  Builtins.assoc_get String.eqb (class_dict cls) k.


(** Non-decreasing order of keys. *)
Definition name_le {A : Type} (key : A -> string) (a b : A) : Prop :=
  String.leb (key a) (key b) = true.



(** [s.add(x)] on strings. *)
Definition add_new (acc : list string) (s : string) : list string :=
  if decide (s ∈ acc) then acc else acc ++ [s].


(** What the declaration check leaves of a default: it satisfies the
    declared type. *)
Definition default_checked (v : EnvVariable.t) : Prop :=
  match EnvVariable.default v with
  | Default d => _check_type d (EnvVariable.type v) = true
  | NoDefault => True
  end.

(** The attributes assigned by the first pass, in order. *)
Definition first_names (items : list (string * member)) : list string :=
  omap (fun nm => match nm.2 with
                  | MVar _ => Some nm.1
                  | MEnv e => Some (item_name nm.1 e)
                  | _ => None
                  end) items.

(** The attributes assigned by a construction, in declaration order. *)
Definition attr_names (items : list (string * member)) : list string :=
  omap (fun nm => attr_name nm.1 nm.2) items.

(** ** Example declarations *)

Module Examples.

(** [Env.var(type, name, default=default)] with the other arguments left
    out. *)
Definition var (type : pytype) (name : string) (default : default_t) : EnvVariable.t :=
  EnvVariable.Make type name None None None default None None None None.

(** An instance of a plain [Env] class over [source], before any attribute
    is assigned. *)
Definition env_over (source : gmap string string) : instance :=
  Instance source "" Env_settings [].

Definition with_prefix (prefix : string) : settings :=
  {| __truthy__ := __truthy__ Env_settings;
     __prefix__ := prefix;
     __item__ := None;
     __item_separator__ := __item_separator__ Env_settings;
     __value_separator__ := __value_separator__ Env_settings |}.

(** A source in which none of the keys read below is set. *)
Definition unrelated : gmap string string := {[ "OTHER" := "x" ]}.

(** [Union[int, str]], [Optional[int]] and [Union[None, int]]. *)
Definition int_or_str : EnvVariable.t := var (TUnion [CInt; CStr]) "n" (Default (VInt 0)).
Definition optional_int : EnvVariable.t := var (TUnion [CInt; CNone]) "n" (Default VNone).
Definition none_or_int : EnvVariable.t := var (TUnion [CNone; CInt]) "n" (Default VNone).

(** A validator that accepts integers from 10 on. *)
Definition at_least_ten (v : value) : result unit :=
  match v with
  | VInt n => if (n <? 10)%Z then Raise (UserError "too small") else Ok tt
  | _ => Ok tt
  end.

Definition validated_int : EnvVariable.t :=
  EnvVariable.Make (TCls CInt) "n" None (Some at_least_ten) None (Default (VInt 5))
    None None None None.

(** A variable with two deprecated names. *)
Definition renamed : EnvVariable.t :=
  EnvVariable.Make (TCls CStr) "new.name" None None None NoDefault
    (Some [("older.name", None, None); ("old.name", Some "1.0", Some "2.0")])
    None None None.

(** [class DB(Env): __prefix__ = "DB"; host = Env.var(str, "HOST")] nested
    in [class App(Env): __prefix__ = "APP"; db = DB]. *)
Definition DB : EnvClass :=
  Class (with_prefix "DB") [("host", MVar (var (TCls CStr) "HOST" NoDefault))].
Definition App : EnvClass :=
  Class (with_prefix "APP") [("db", MEnv DB)].

(** [class Store(Env): __prefix__ = "db."; host = Env.var(str, "host.name")]
    nested in [class Site(Env): __prefix__ = "my.app_"; store = Store]:
    names that normalizing changes. *)
Definition Store : EnvClass :=
  Class (with_prefix "db.") [("host", MVar (var (TCls CStr) "host.name" NoDefault))].
Definition Site : EnvClass :=
  Class (with_prefix "my.app_") [("store", MEnv Store)].

(** [class Named(Env): __prefix__ = "db"; __item__ = "database"] declared
    as [db = Named] in [class Holder(Env): __prefix__ = "app"]. *)
Definition Named : EnvClass :=
  Class {| __truthy__ := __truthy__ Env_settings;
           __prefix__ := "db";
           __item__ := Some "database";
           __item_separator__ := __item_separator__ Env_settings;
           __value_separator__ := __value_separator__ Env_settings |}
        [("host", MVar (var (TCls CStr) "host" NoDefault))].
Definition Holder : EnvClass :=
  Class (with_prefix "app") [("db", MEnv Named)].

(** A class with a derived variable declared before the variable it
    reads. *)
Definition port_plus_one (env : instance) : result value :=
  match getattr env "port" with
  | Some (AVal (VInt n)) => Ok (VInt (n + 1))
  | _ => Raise AttributeError
  end.

Definition Service : EnvClass :=
  Class (with_prefix "svc")
    [("next_port", MDer (DerivedVariable.Make (TCls CInt) port_plus_one));
     ("port", MVar (var (TCls CInt) "port" NoDefault));
     ("db", MEnv DB)].

(** A class without prefix, and a two-level tree of nested classes. *)
Definition Flat : EnvClass :=
  Class Env_settings [("foo", MVar (var (TCls CStr) "foo" NoDefault))].

Definition leaf (prefix : string) : EnvClass :=
  Class (with_prefix prefix) [("x", MVar (var (TCls CStr) "x" NoDefault))].

Definition Tree : EnvClass :=
  Class (with_prefix "t")
    [("a", MEnv (Class (with_prefix "a")
                   [("x", MVar (var (TCls CStr) "x" NoDefault));
                    ("a1", MEnv (leaf "a1"))]));
     ("b", MEnv (Class (with_prefix "b")
                   [("x", MVar (var (TCls CStr) "x" NoDefault));
                    ("b1", MEnv (leaf "b1"))]))].

Definition display_keys (r : result (list HelpInfo)) : list string :=
  match r with
  | Ok l => (fun e => e.1.1.1) <$> l
  | Raise _ => []
  end.

End Examples.

(** * Properties *)

(** *** Sanity checks of the string model *)

Example normalized_dotted : _normalized "a.b.c_" = "A_B_C".
Proof. reflexivity. Qed.

Example normalized_trailing : _normalized "x___" = "X".
Proof. reflexivity. Qed.

Example split_commas : PyStr.split "a,b,c" "," None = Ok ["a"; "b"; "c"].
Proof. reflexivity. Qed.

Example split_once : PyStr.split "a:b:c" ":" (Some 1) = Ok ["a"; "b:c"].
Proof. reflexivity. Qed.

Example split_wide : PyStr.split "a--b-c--" "--" None = Ok ["a"; "b-c"; ""].
Proof. reflexivity. Qed.

Example split_empty : PyStr.split "" "," None = Ok [""].
Proof. reflexivity. Qed.

Example replace_empty_old : PyStr.replace "abc" "" "-" = "-a-b-c-".
Proof. reflexivity. Qed.

Example int_of_str_spaces :
  Builtins.int_of_str (" +1_000" +:+ String (ascii_of_nat 10) "") = Some 1000%Z.
Proof. reflexivity. Qed.

Example int_of_str_separator :
  Builtins.int_of_str (String (ascii_of_nat 28) "42") = None
  /\ PyStr.strip (String (ascii_of_nat 28) "42") = "42".
Proof. split; reflexivity. Qed.

(** *** Strings *)

Lemma split_go_nonempty sep s skip m : PyStr.split_go sep s skip m <> [].
Proof.
  revert skip m. induction s as [|c s IH]; intros skip m; cbn; [discriminate|].
  destruct skip; [|apply IH].
  destruct (_ && _); [discriminate|].
  destruct (PyStr.split_go sep s 0 m) eqn:E; [discriminate|discriminate].
Qed.

Lemma concat_cons_empty sep l :
  l <> [] -> String.concat sep (EmptyString :: l) = sep +:+ String.concat sep l.
Proof. destruct l; [congruence|reflexivity]. Qed.

Lemma concat_cons_head sep c l :
  l <> [] -> String.concat sep (PyStr.cons_head c l) = String c (String.concat sep l).
Proof.
  destruct l as [|p [|q l]]; [congruence| |]; reflexivity.
Qed.

Lemma append_cons a p s : String a p +:+ s = String a (p +:+ s).
Proof. reflexivity. Qed.

Lemma prefix_drop p s :
  String.prefix p s = true -> p +:+ drop_chars (String.length p) s = s.
Proof.
  revert s. induction p as [|a p IH]; intros s H; [reflexivity|].
  destruct s as [|b s]; [discriminate|]. cbn in *.
  destruct (Ascii.ascii_dec a b) as [->|]; [|discriminate].
  rewrite append_cons. f_equal. apply IH, H.
Qed.

Lemma split_go_concat sep s skip m :
  sep <> EmptyString ->
  String.concat sep (PyStr.split_go sep s skip m) = drop_chars skip s.
Proof.
  intros Hsep. revert skip m.
  induction s as [|c s IH]; intros skip m.
  - destruct skip; reflexivity.
  - destruct skip as [|k]; [|apply IH].
    cbn [PyStr.split_go].
    destruct (PyStr.may_split m && String.prefix sep (String c s)) eqn:E.
    + apply andb_true_iff in E as [_ E].
      rewrite concat_cons_empty by apply split_go_nonempty.
      rewrite IH.
      destruct sep as [|a sep]; [congruence|].
      cbn in E. destruct (Ascii.ascii_dec a c) as [->|]; [|discriminate].
      cbn [String.length Nat.sub]. rewrite Nat.sub_0_r, append_cons.
      cbn [drop_chars]. f_equal. apply prefix_drop, E.
    + rewrite concat_cons_head by apply split_go_nonempty.
      rewrite IH. reflexivity.
Qed.

Lemma split_go_once_length sep s skip n :
  (List.length (PyStr.split_go sep s skip (Some n)) <= S n)%nat.
Proof.
  revert skip n. induction s as [|c s IH]; intros skip n; [cbn; lia|].
  cbn [PyStr.split_go]. destruct skip; [|apply IH].
  destruct (PyStr.may_split (Some n) && String.prefix sep (String c s)) eqn:E.
  - destruct n as [|n]; [discriminate|].
    cbn [List.length PyStr.spend Nat.pred].
    specialize (IH (String.length sep - 1)%nat n). lia.
  - specialize (IH 0%nat n).
    destruct (PyStr.split_go sep s 0 (Some n)); cbn in *; lia.
Qed.

(** *** Built-in constructors *)

Lemma collect_strings l :
  Builtins.collect (fun s => Ok (VStr s)) l = Ok (VStr <$> l).
Proof.
  induction l as [|x l IH]; [reflexivity|]. cbn. rewrite IH. reflexivity.
Qed.

Lemma isinstance_str_any raw args :
  Builtins.isinstance_any (VStr raw) args = true <-> CStr ∈ args.
Proof.
  unfold Builtins.isinstance_any. rewrite existsb_exists. split.
  - intros (c & Hin & Hc). destruct c; try discriminate.
    apply list_elem_of_In, Hin.
  - intros Hin. exists CStr. split; [apply list_elem_of_In, Hin|reflexivity].
Qed.

Lemma try_union_all_TypeError args raw otherwise :
  Forall (fun t => Builtins.call_class t raw = Raise TypeError) args ->
  try_union args raw otherwise = otherwise.
Proof.
  induction 1 as [|t args Ht _ IH]; [reflexivity|].
  cbn. rewrite Ht. apply IH.
Qed.

Lemma try_union_first pre t post raw otherwise :
  Forall (fun t' => Builtins.call_class t' raw = Raise TypeError) pre ->
  Builtins.call_class t raw <> Raise TypeError ->
  try_union (pre ++ t :: post) raw otherwise = Builtins.call_class t raw.
Proof.
  intros Hpre Ht. induction Hpre as [|t' pre Ht' _ IH].
  - cbn. destruct (Builtins.call_class t raw) as [v|[]]; congruence.
  - cbn. rewrite Ht'. apply IH.
Qed.

Lemma coerce_union self env raw args :
  EnvVariable.type self = TUnion args ->
  EnvVariable.parser self = None ->
  coerce self env raw
  = if Builtins.isinstance_any (VStr raw) args then Ok (VStr raw)
    else try_union args raw (Raise TypeError).
Proof.
  intros Ht Hp. unfold coerce. rewrite Ht, Hp. reflexivity.
Qed.

(** *** The event monad *)

Lemma M_bind_ret_l {A B : Type} (a : A) (f : A -> M B) : (mret a ≫= f) = f a.
Proof. cbn. destruct (f a). reflexivity. Qed.

Lemma M_bind_ret_r {A : Type} (m : M A) : (m ≫= mret) = m.
Proof. destruct m as [l [a|e]]; cbn; [rewrite app_nil_r|]; reflexivity. Qed.

Lemma M_bind_assoc {A B C : Type} (m : M A) (f : A -> M B) (g : B -> M C) :
  ((m ≫= f) ≫= g) = (m ≫= fun a => f a ≫= g).
Proof.
  destruct m as [l [a|e]]; cbn; [|reflexivity].
  destruct (f a) as [l' [b|e]]; cbn; [|reflexivity].
  destruct (g b) as [l'' r]. rewrite app_assoc. reflexivity.
Qed.

Lemma M_bind_ext {A B : Type} (m : M A) (f g : A -> M B) :
  (forall a, f a = g a) -> (m ≫= f) = (m ≫= g).
Proof. intros H. destruct m as [l [a|e]]; cbn; [rewrite H|]; reflexivity. Qed.

Lemma outcome_bind_ok {A B : Type} (m : M A) (f : A -> M B) a :
  outcome m = Ok a -> outcome (m ≫= f) = outcome (f a).
Proof.
  destruct m as [l r]. cbn. intros ->. destruct (f a). reflexivity.
Qed.

Lemma outcome_bind_raise {A B : Type} (m : M A) (f : A -> M B) e :
  outcome m = Raise e -> outcome (m ≫= f) = Raise e.
Proof. destruct m as [l r]. cbn. intros ->. reflexivity. Qed.

Lemma outcome_bind_inv {A B : Type} (m : M A) (f : A -> M B) b :
  outcome (m ≫= f) = Ok b ->
  exists a, outcome m = Ok a /\ outcome (f a) = Ok b.
Proof.
  destruct m as [l [a|e]]; cbn.
  - destruct (f a) eqn:E. cbn. intros ->. exists a. rewrite E. auto.
  - discriminate.
Qed.

(** *** Retrieval *)

Section Retrieve.
Context (self : EnvVariable.t) (env : instance) (prefix : string).
Let full_name := prefix +:+ _normalized (EnvVariable.name self).

Lemma scan_all_absent deps :
  Forall (fun d => source env !! deprecated_key prefix d = None) deps ->
  scan_deprecations (source env) prefix full_name deps
  = (EvGet <$> (deprecated_key prefix <$> deps), Ok None).
Proof.
  induction 1 as [|[[n dw] rw] deps Hd _ IH]; [reflexivity|].
  cbn in *. unfold deprecated_key in Hd. cbn in Hd. rewrite Hd. cbn.
  rewrite IH. reflexivity.
Qed.

Lemma scan_first_present pre name dw rw post raw :
  Forall (fun d => source env !! deprecated_key prefix d = None) pre ->
  source env !! (prefix +:+ _normalized name) = Some raw ->
  scan_deprecations (source env) prefix full_name (pre ++ (name, dw, rw) :: post)
  = ((EvGet <$> (deprecated_key prefix <$> pre))
       ++ [EvGet (prefix +:+ _normalized name);
           EvWarn (deprecation_message (prefix +:+ _normalized name) dw rw full_name)],
     Ok (Some raw)).
Proof.
  intros Hpre Hhit.
  induction Hpre as [|[[n dw'] rw'] pre Hd _ IH].
  - cbn. rewrite Hhit. reflexivity.
  - cbn in *. unfold deprecated_key in Hd. cbn in Hd. rewrite Hd. cbn.
    rewrite IH. reflexivity.
Qed.

Lemma retrieve_present raw :
  source env !! full_name = Some raw ->
  _retrieve self env prefix = ([EvGet full_name], coerce self env raw).
Proof.
  intros H. unfold _retrieve. fold full_name. cbn. rewrite H. cbn.
  destruct (EnvVariable.deprecations self) as [[|]|]; reflexivity.
Qed.

Lemma retrieve_absent :
  source env !! full_name = None ->
  Forall (fun d => source env !! deprecated_key prefix d = None)
         (deprecations_list (EnvVariable.deprecations self)) ->
  _retrieve self env prefix
  = (EvGet full_name
       :: (EvGet <$> (deprecated_key prefix <$> deprecations_list (EnvVariable.deprecations self))),
     match EnvVariable.default self with
     | Default d => Ok d
     | NoDefault => Raise (KeyError (full_name +:+ " is not set"))
     end).
Proof.
  intros H Hdeps. unfold _retrieve. fold full_name. cbn -[scan_deprecations]. rewrite H.
  destruct (deprecations_list (EnvVariable.deprecations self)) as [|d deps] eqn:E.
  - cbn. destruct (EnvVariable.default self); reflexivity.
  - cbn -[scan_deprecations]. rewrite (scan_all_absent _ Hdeps).
    destruct (EnvVariable.default self); cbn; rewrite app_nil_r; reflexivity.
Qed.

Lemma retrieve_deprecated pre name dw rw post raw :
  source env !! full_name = None ->
  deprecations_list (EnvVariable.deprecations self) = pre ++ (name, dw, rw) :: post ->
  Forall (fun d => source env !! deprecated_key prefix d = None) pre ->
  source env !! (prefix +:+ _normalized name) = Some raw ->
  _retrieve self env prefix
  = (EvGet full_name
       :: (EvGet <$> (deprecated_key prefix <$> pre))
       ++ [EvGet (prefix +:+ _normalized name);
           EvWarn (deprecation_message (prefix +:+ _normalized name) dw rw full_name)],
     coerce self env raw).
Proof.
  intros H E Hpre Hhit. unfold _retrieve. fold full_name.
  cbn -[scan_deprecations]. rewrite H, E.
  destruct (pre ++ (name, dw, rw) :: post) as [|d deps] eqn:E'.
  { destruct pre; discriminate. }
  cbn -[scan_deprecations]. rewrite <- E'.
  rewrite (scan_first_present _ _ _ _ _ _ Hpre Hhit). cbn.
  rewrite app_nil_r. reflexivity.
Qed.

Lemma scan_outcome deps :
  outcome (scan_deprecations (source env) prefix full_name deps)
  = Ok (first_alias (source env) prefix deps).
Proof.
  induction deps as [|[[n dw] rw] deps IH]; [reflexivity|].
  cbn [scan_deprecations first_alias]. unfold deprecated_key. cbn [fst].
  unfold source_get.
  erewrite outcome_bind_ok by reflexivity.
  destruct (source env !! (prefix +:+ _normalized n)) as [r|]; [reflexivity|].
  exact IH.
Qed.

(** The outcome of a retrieval, from the raw string it finds. *)
Lemma retrieve_outcome :
  outcome (_retrieve self env prefix)
  = match raw_value self env prefix with
    | Some raw => coerce self env raw
    | None =>
        match EnvVariable.default self with
        | Default d => Ok d
        | NoDefault => Raise (KeyError (full_name +:+ " is not set"))
        end
    end.
Proof.
  unfold raw_value. fold full_name.
  destruct (source env !! full_name) as [raw|] eqn:E.
  - rewrite (retrieve_present raw E). reflexivity.
  - unfold _retrieve. fold full_name. unfold source_get.
    erewrite outcome_bind_ok by reflexivity. rewrite E.
    destruct (deprecations_list (EnvVariable.deprecations self)) as [|d deps] eqn:Ed.
    + rewrite M_bind_ret_l. destruct (EnvVariable.default self); reflexivity.
    + rewrite (outcome_bind_ok _ _ _ (scan_outcome (d :: deps))).
      destruct (first_alias (source env) prefix (d :: deps)); [reflexivity|].
      destruct (EnvVariable.default self); reflexivity.
Qed.

End Retrieve.

(** *** Dictionaries *)

Section Assoc.
Context {V : Type}.
Implicit Types (d : list (string * V)) (k : string) (v : V).

Lemma assoc_get_set d k v k' :
  Builtins.assoc_get String.eqb (Builtins.assoc_set String.eqb d k v) k'
  = if String.eqb k k' then Some v else Builtins.assoc_get String.eqb d k'.
Proof.
  induction d as [|[k0 v0] d IH]; cbn.
  - reflexivity.
  - destruct (String.eqb_spec k0 k) as [->|Hne]; cbn.
    + destruct (String.eqb k k'); reflexivity.
    + rewrite IH. destruct (String.eqb_spec k0 k') as [->|]; [|reflexivity].
      destruct (String.eqb_spec k k'); congruence.
Qed.

Lemma assoc_get_app d1 d2 k :
  Builtins.assoc_get String.eqb (d1 ++ d2) k
  = match Builtins.assoc_get String.eqb d1 k with
    | Some v => Some v
    | None => Builtins.assoc_get String.eqb d2 k
    end.
Proof.
  induction d1 as [|[k0 v0] d1 IH]; cbn; [reflexivity|].
  destruct (String.eqb k0 k); [reflexivity|apply IH].
Qed.

(** Last write wins: the value under [k] is that of the last pair with
    key [k]. *)
Lemma assoc_get_fold_set (pairs : list (string * V)) d k :
  Builtins.assoc_get String.eqb
    (fold_left (fun d kv => Builtins.assoc_set String.eqb d kv.1 kv.2) pairs d) k
  = match Builtins.assoc_get String.eqb (reverse pairs) k with
    | Some v => Some v
    | None => Builtins.assoc_get String.eqb d k
    end.
Proof.
  revert d. induction pairs as [|[k0 v0] pairs IH]; intros d; [reflexivity|].
  cbn [fold_left fst snd]. rewrite IH, reverse_cons, assoc_get_app, assoc_get_set.
  destruct (Builtins.assoc_get String.eqb (reverse pairs) k); [reflexivity|].
  cbn. rewrite String.eqb_sym. destruct (String.eqb k k0); reflexivity.
Qed.

End Assoc.

Lemma split_nonempty_sep s sep m :
  sep <> EmptyString -> PyStr.split s sep m = Ok (PyStr.split_go sep s 0 m).
Proof. destruct sep; [congruence|reflexivity]. Qed.

Lemma dict_of_items_pairs vsep items pairs d :
  vsep <> EmptyString ->
  Forall2 (fun item kv => PyStr.split_go vsep item 0 (Some 1%nat) = [kv.1; kv.2])
          items pairs ->
  dict_of_items vsep items d
  = Ok (fold_left (fun d kv => Builtins.assoc_set String.eqb d kv.1 kv.2) pairs d).
Proof.
  intros Hsep H. revert d.
  induction H as [|item [k v] items pairs Hkv _ IH]; intros d; [reflexivity|].
  cbn [dict_of_items]. rewrite split_nonempty_sep by assumption.
  cbn [mbind result_bind rbind]. rewrite Hkv. apply IH.
Qed.

Lemma dict_of_items_unsplit vsep items d :
  vsep <> EmptyString ->
  Exists (fun item => forall k v, PyStr.split_go vsep item 0 (Some 1%nat) <> [k; v]) items ->
  dict_of_items vsep items d = Raise ValueError.
Proof.
  intros Hsep H. revert d.
  induction items as [|item items IH]; intros d.
  - inversion H.
  - cbn [dict_of_items]. rewrite split_nonempty_sep by assumption.
    cbn [mbind result_bind rbind].
    destruct (PyStr.split_go vsep item 0 (Some 1%nat)) as [|k [|v [|w l]]] eqn:E;
      try reflexivity.
    apply IH. inversion H as [? ? Hbad|]; subst; [|assumption].
    exfalso. exact (Hbad k v E).
Qed.

(** *** Default coercion of collections *)

Section Coerce.
Context (self : EnvVariable.t) (env : instance) (raw : string).
Hypothesis no_parser : EnvVariable.parser self = None.

Lemma coerce_list :
  EnvVariable.type self = TCls CList ->
  EnvVariable.map self = None ->
  __item_separator__ (cls_settings env) <> EmptyString ->
  coerce self env raw
  = Ok (VList (VStr <$> PyStr.split_go (__item_separator__ (cls_settings env)) raw 0 None)).
Proof.
  intros Ht Hm Hs. unfold coerce. rewrite no_parser, Ht, Hm.
  rewrite split_nonempty_sep by assumption. cbn.
  rewrite collect_strings. reflexivity.
Qed.

Lemma coerce_tuple :
  EnvVariable.type self = TCls CTuple ->
  EnvVariable.map self = None ->
  __item_separator__ (cls_settings env) <> EmptyString ->
  coerce self env raw
  = Ok (VTuple (VStr <$> PyStr.split_go (__item_separator__ (cls_settings env)) raw 0 None)).
Proof.
  intros Ht Hm Hs. unfold coerce. rewrite no_parser, Ht, Hm.
  rewrite split_nonempty_sep by assumption. cbn.
  rewrite collect_strings. reflexivity.
Qed.

Lemma coerce_set :
  EnvVariable.type self = TCls CSet ->
  EnvVariable.map self = None ->
  __item_separator__ (cls_settings env) <> EmptyString ->
  coerce self env raw
  = VSet <$> Builtins.collect_set (fun s => Ok (VStr s))
               (PyStr.split_go (__item_separator__ (cls_settings env)) raw 0 None) [].
Proof.
  intros Ht Hm Hs. unfold coerce. rewrite no_parser, Ht, Hm.
  rewrite split_nonempty_sep by assumption. reflexivity.
Qed.

Lemma coerce_dict :
  EnvVariable.type self = TCls CDict ->
  __item_separator__ (cls_settings env) <> EmptyString ->
  coerce self env raw
  = (d ← dict_of_items (__value_separator__ (cls_settings env))
           (PyStr.split_go (__item_separator__ (cls_settings env)) raw 0 None) [];
     match EnvVariable.map self with
     | Some map => VDict <$> dict_of_mapped map d []
     | None => Ok (str_dict d)
     end).
Proof.
  intros Ht Hs. unfold coerce. rewrite no_parser, Ht.
  rewrite split_nonempty_sep by assumption. reflexivity.
Qed.

End Coerce.

(** *** Induction on schema trees *)

Lemma EnvClass_tree_ind (P : EnvClass -> Prop) :
  (forall k d, Forall P (nested_classes d) -> P (Class k d)) ->
  forall cls, P cls.
Proof.
  intros H. fix IH 1. intros [k d]. apply H.
  induction d as [|[n m] d IHd]; [constructor|].
  destruct m as [v|e|dv|]; cbn; try exact IHd.
  constructor; [apply IH|exact IHd].
Qed.

(** *** Construction *)

Lemma Env_init_unfold environ cls source parent :
  Env_init environ cls source parent
  = (st ← init_members (fun e self => Env_init environ e source (Some self))
            (class_dict cls)
            (Instance (source_or source environ)
               (init_full_prefix parent (__prefix__ (cfg cls))) (cfg cls) []) [];
     init_derived st.2 st.1).
Proof. destruct cls. reflexivity. Qed.

Lemma init_members_ext c1 c2 items self derived :
  Forall (fun e => forall self, c1 e self = c2 e self) (nested_classes items) ->
  init_members c1 items self derived = init_members c2 items self derived.
Proof.
  revert self derived.
  induction items as [|[n m] items IH]; intros self derived H; [reflexivity|].
  destruct m as [v|e|dv|]; cbn in H |- *.
  - apply M_bind_ext. intros x. apply IH, H.
  - inversion H as [|? ? He Hrest]; subst. rewrite He.
    apply M_bind_ext. intros x. apply IH, Hrest.
  - apply IH, H.
  - apply IH, H.
Qed.

Lemma setattr_source i n a : source (setattr i n a) = source i.
Proof. destruct i. reflexivity. Qed.

Lemma setattr_full_prefix i n a : _full_prefix (setattr i n a) = _full_prefix i.
Proof. destruct i. reflexivity. Qed.

Lemma setattr_cls_settings i n a : cls_settings (setattr i n a) = cls_settings i.
Proof. destruct i. reflexivity. Qed.

Lemma getattr_setattr i n a n' :
  getattr (setattr i n a) n' = if String.eqb n n' then Some a else getattr i n'.
Proof. destruct i. apply assoc_get_set. Qed.

Lemma getattr_setattr_is_Some i n a n' :
  is_Some (getattr i n') -> is_Some (getattr (setattr i n a) n').
Proof. rewrite getattr_setattr. destruct (String.eqb n n'); eauto. Qed.

Lemma same_frame_refl i : same_frame i i.
Proof. repeat split; auto. Qed.

Lemma same_frame_setattr i j n a : same_frame (setattr i n a) j -> same_frame i j.
Proof.
  intros (Hs & Hp & Hk & Ha).
  rewrite setattr_source in Hs. rewrite setattr_full_prefix in Hp.
  rewrite setattr_cls_settings in Hk.
  repeat split; auto. intros n' Hn'. apply Ha, getattr_setattr_is_Some, Hn'.
Qed.

Lemma init_derived_frame derived self inst :
  outcome (init_derived derived self) = Ok inst -> same_frame self inst.
Proof.
  revert self. induction derived as [|[n d] derived IH]; intros self H.
  - cbn in H. injection H as <-. apply same_frame_refl.
  - cbn [init_derived] in H. apply outcome_bind_inv in H as (x & _ & H).
    eapply same_frame_setattr, IH, H.
Qed.

Lemma init_members_frame construct items self derived st :
  outcome (init_members construct items self derived) = Ok st ->
  same_frame self st.1.
Proof.
  revert self derived.
  induction items as [|[n m] items IH]; intros self derived H.
  - cbn in H. injection H as <-. apply same_frame_refl.
  - destruct m as [v|e|dv|]; cbn [init_members] in H.
    + apply outcome_bind_inv in H as (x & _ & H).
      eapply same_frame_setattr, IH, H.
    + apply outcome_bind_inv in H as (x & _ & H).
      eapply same_frame_setattr, IH, H.
    + eapply IH, H.
    + eapply IH, H.
Qed.

Lemma Env_init_frame environ cls source parent inst :
  outcome (Env_init environ cls source parent) = Ok inst ->
  same_frame
    (Instance (source_or source environ)
       (init_full_prefix parent (__prefix__ (cfg cls))) (cfg cls) []) inst.
Proof.
  rewrite Env_init_unfold. intros H.
  apply outcome_bind_inv in H as (st & H1 & H2).
  apply init_members_frame in H1. apply init_derived_frame in H2.
  destruct H1 as (Hs & Hp & Hk & Ha), H2 as (Hs' & Hp' & Hk' & Ha').
  repeat split; try congruence. auto.
Qed.

(** *** The two passes *)

Lemma init_members_two_phase construct items self derived :
  init_members construct items self derived
  = (self1 ← first_pass construct items self;
     mret (self1, derived ++ derived_members items)).
Proof.
  revert self derived.
  induction items as [|[n m] items IH]; intros self derived.
  - cbn [init_members first_pass derived_members omap list_omap].
    rewrite M_bind_ret_l, app_nil_r. reflexivity.
  - destruct m as [v|e|dv|]; cbn [init_members first_pass].
    + rewrite M_bind_assoc. apply M_bind_ext. intros x. apply IH.
    + rewrite M_bind_assoc. apply M_bind_ext. intros x. apply IH.
    + rewrite IH. apply M_bind_ext. intros s.
      cbn. rewrite <- app_assoc. reflexivity.
    + apply IH.
Qed.

Lemma Env_init_two_phase environ cls source parent :
  Env_init environ cls source parent
  = (self1 ← first_pass (fun e self => Env_init environ e source (Some self))
               (class_dict cls)
               (Instance (source_or source environ)
                  (init_full_prefix parent (__prefix__ (cfg cls))) (cfg cls) []);
     init_derived (derived_members (class_dict cls)) self1).
Proof.
  rewrite Env_init_unfold, init_members_two_phase, M_bind_assoc.
  apply M_bind_ext. intros s. rewrite M_bind_ret_l. reflexivity.
Qed.

Lemma init_derived_app pre post self :
  init_derived (pre ++ post) self
  = (s ← init_derived pre self; init_derived post s).
Proof.
  revert self. induction pre as [|[n d] pre IH]; intros self.
  - cbn [app init_derived]. rewrite M_bind_ret_l. reflexivity.
  - cbn [app init_derived]. rewrite M_bind_assoc.
    apply M_bind_ext. intros x. apply IH.
Qed.

Lemma first_pass_frame construct items self s1 :
  outcome (first_pass construct items self) = Ok s1 -> same_frame self s1.
Proof.
  revert self. induction items as [|[n m] items IH]; intros self H.
  - cbn in H. injection H as <-. apply same_frame_refl.
  - destruct m as [v|e|dv|]; cbn [first_pass] in H.
    + apply outcome_bind_inv in H as (x & _ & H).
      eapply same_frame_setattr, IH, H.
    + apply outcome_bind_inv in H as (x & _ & H).
      eapply same_frame_setattr, IH, H.
    + eapply IH, H.
    + eapply IH, H.
Qed.

Lemma getattr_setattr_eq i n a : is_Some (getattr (setattr i n a) n).
Proof. rewrite getattr_setattr, String.eqb_refl. eauto. Qed.

Lemma first_pass_assigned construct items self s1 name m :
  outcome (first_pass construct items self) = Ok s1 ->
  (name, m) ∈ items ->
  match m with
  | MVar _ => is_Some (getattr s1 name)
  | MEnv e => is_Some (getattr s1 (item_name name e))
  | _ => True
  end.
Proof.
  revert self. induction items as [|[n0 m0] items IH]; intros self H Hin.
  - inversion Hin.
  - apply elem_of_cons in Hin as [Heq|Hin].
    + injection Heq as <- <-.
      destruct m as [v|e|dv|]; cbn [first_pass] in H; try exact I.
      * apply outcome_bind_inv in H as (x & _ & H).
        apply first_pass_frame in H as (_ & _ & _ & Ha).
        apply Ha, getattr_setattr_eq.
      * apply outcome_bind_inv in H as (x & _ & H).
        apply first_pass_frame in H as (_ & _ & _ & Ha).
        apply Ha, getattr_setattr_eq.
    + destruct m0 as [v|e|dv|]; cbn [first_pass] in H.
      * apply outcome_bind_inv in H as (x & _ & H). eapply IH; eassumption.
      * apply outcome_bind_inv in H as (x & _ & H). eapply IH; eassumption.
      * eapply IH; eassumption.
      * eapply IH; eassumption.
Qed.

Lemma init_derived_assigned derived self inst n d :
  outcome (init_derived derived self) = Ok inst ->
  (n, d) ∈ derived -> is_Some (getattr inst n).
Proof.
  revert self. induction derived as [|[n0 d0] derived IH]; intros self H Hin.
  - inversion Hin.
  - cbn [init_derived] in H. apply outcome_bind_inv in H as (x & _ & H).
    apply elem_of_cons in Hin as [Heq|Hin].
    + injection Heq as <- <-.
      apply init_derived_frame in H as (_ & _ & _ & Ha).
      apply Ha, getattr_setattr_eq.
    + eapply IH; eassumption.
Qed.

Lemma derived_members_elem name d items :
  (name, MDer d) ∈ items -> (name, d) ∈ derived_members items.
Proof.
  intros Hin. unfold derived_members. apply list_elem_of_omap.
  exists (name, MDer d). split; [assumption|reflexivity].
Qed.

(** *** [help_info] terminates *)

Lemma pop_snoc {A : Type} (l l' : list A) x :
  pop l = Some (l', x) -> l = l' ++ [x].
Proof.
  unfold pop. destruct (reverse l) as [|y r] eqn:E; [discriminate|].
  intros [= <- <-]. rewrite <- (reverse_involutive l), E, reverse_cons.
  reflexivity.
Qed.

Lemma insert_by_perm {A : Type} (key : A -> string) x l :
  insert_by key x l ≡ₚ x :: l.
Proof.
  induction l as [|y l IH]; cbn; [reflexivity|].
  destruct (String.ltb (key x) (key y)); [reflexivity|].
  rewrite IH. apply Permutation_swap.
Qed.

Lemma sorted_perm {A : Type} (key : A -> string) l : sorted key l ≡ₚ l.
Proof.
  unfold sorted.
  enough (forall acc, fold_left (fun acc x => insert_by key x acc) l acc ≡ₚ l ++ acc) as H.
  { rewrite H, app_nil_r. reflexivity. }
  induction l as [|x l IH]; intros acc; cbn; [reflexivity|].
  rewrite IH, insert_by_perm. symmetry. apply Permutation_middle.
Qed.

Lemma class_count_pos cls : (1 <= class_count cls)%nat.
Proof. destruct cls. cbn. lia. Qed.

Lemma nested_configs_count p k d :
  (S (sum_list_with (fun c => class_count c.2) (nested_configs p (Class k d)))
   <= class_count (Class k d))%nat.
Proof.
  unfold nested_configs. cbn [class_dict class_count].
  apply le_n_S.
  induction d as [|[n m] d IH]; cbn; [lia|].
  destruct m as [v|e|dv|]; try exact IH.
  destruct (negb (String.eqb n "parent")); cbn; lia.
Qed.

Lemma help_loop_enough str_value union_name fuel recursive configs entries :
  (sum_list_with (fun c => class_count c.2) configs <= fuel)%nat ->
  is_Some (help_loop str_value union_name fuel recursive configs entries).
Proof.
  revert configs entries.
  induction fuel as [|fuel IH]; intros configs entries Hle.
  - destruct configs as [|[p c] configs].
    + cbn. eauto.
    + cbn in Hle. pose proof (class_count_pos c). lia.
  - cbn [help_loop]. destruct (pop configs) as [[configs' [p c]]|] eqn:E; [|eauto].
    apply pop_snoc in E as ->.
    rewrite sum_list_with_app in Hle. cbn in Hle.
    destruct (add_entries _ _ _ _ _) as [entries'|e]; [|eauto].
    destruct (negb recursive); [eauto|].
    apply IH. rewrite sum_list_with_app, sorted_perm.
    destruct c as [k d]. pose proof (nested_configs_count
      (if negb (PyStr.endswith (p +:+ _normalized (__prefix__ k)) "_")
       then (p +:+ _normalized (__prefix__ k)) +:+ "_"
       else p +:+ _normalized (__prefix__ k)) k d).
    cbn [cfg]. lia.
Qed.

Lemma help_loop_terminates str_value union_name cls recursive :
  help_loop str_value union_name (class_count cls) recursive [("", cls)] []
  = Some (help_info str_value union_name cls recursive).
Proof.
  unfold help_info.
  destruct (help_loop_enough str_value union_name (class_count cls) recursive
              [("", cls)] []) as [r ->]; [cbn; lia|reflexivity].
Qed.

(** *** Events of a construction *)

Lemma events_bind_ok {A B : Type} (m : M A) (f : A -> M B) a :
  outcome m = Ok a -> events (m ≫= f) = events m ++ events (f a).
Proof.
  destruct m as [l r]. cbn. intros ->. destruct (f a). reflexivity.
Qed.

Lemma retrieve_first_event self env prefix :
  exists l, events (_retrieve self env prefix)
            = EvGet (prefix +:+ _normalized (EnvVariable.name self)) :: l.
Proof.
  unfold _retrieve, source_get. cbn [mbind M_bind].
  destruct (_ ≫= _) as [l r]. exists l. reflexivity.
Qed.

Lemma call_first_event self env prefix :
  exists l, events (EnvVariable_call self env prefix)
            = EvGet (prefix +:+ _normalized (EnvVariable.name self)) :: l.
Proof.
  destruct (retrieve_first_event self env prefix) as [l Hl].
  unfold EnvVariable_call.
  destruct (_retrieve self env prefix) as [l0 [x|e]]; cbn in Hl; cbn; rewrite Hl.
  - destruct (EnvVariable.validator self) as [f|]; cbn;
      [destruct (f x) as [[]|e]|]; eexists; reflexivity.
  - eexists. reflexivity.
Qed.

Lemma first_pass_lookups construct items self s1 name v :
  outcome (first_pass construct items self) = Ok s1 ->
  (name, MVar v) ∈ items ->
  EvGet (_full_prefix self +:+ _normalized (EnvVariable.name v))
    ∈ events (first_pass construct items self).
Proof.
  revert self. induction items as [|[n0 m0] items IH]; intros self H Hin.
  - inversion Hin.
  - apply elem_of_cons in Hin as [Heq|Hin].
    + injection Heq as <- <-. cbn [first_pass] in H |- *.
      destruct (outcome_bind_inv _ _ _ H) as (x & Hx & _).
      rewrite (events_bind_ok _ _ _ Hx).
      destruct (call_first_event v self (_full_prefix self)) as [l ->].
      apply elem_of_app. left. apply list_elem_of_here.
    + destruct m0 as [v0|e0|d0|]; cbn [first_pass] in H |- *.
      * destruct (outcome_bind_inv _ _ _ H) as (x & Hx & H').
        rewrite (events_bind_ok _ _ _ Hx). apply elem_of_app. right.
        rewrite <- (setattr_full_prefix self n0 (AVal x)). apply IH; assumption.
      * destruct (outcome_bind_inv _ _ _ H) as (x & Hx & H').
        rewrite (events_bind_ok _ _ _ Hx). apply elem_of_app. right.
        rewrite <- (setattr_full_prefix self (item_name n0 e0) (AEnv x)).
        apply IH; assumption.
      * apply IH; assumption.
      * apply IH; assumption.
Qed.

Lemma substring_all t : substring 0 (String.length t) t = t.
Proof. induction t as [|a t IH]; cbn; [reflexivity|rewrite IH; reflexivity]. Qed.

Lemma length_append s t :
  String.length (s +:+ t) = (String.length s + String.length t)%nat.
Proof.
  induction s as [|a s IH]; [reflexivity|].
  rewrite append_cons. cbn. f_equal. exact IH.
Qed.

Lemma endswith_append s t : PyStr.endswith (s +:+ t) t = true.
Proof.
  unfold PyStr.endswith. rewrite length_append.
  replace (String.length s + String.length t - String.length t)%nat
    with (String.length s) by lia.
  apply andb_true_iff. split; [apply Nat.leb_le; lia|].
  apply String.eqb_eq.
  induction s as [|a s IH]; [apply substring_all|].
  rewrite append_cons. exact IH.
Qed.

(** *** Normalized names *)

Lemma replace_dot t :
  PyStr.replace t "." "_"
  = PyStr.map_chars (fun c => if Ascii.eqb c "." then "_"%char else c) t.
Proof.
  unfold PyStr.replace.
  induction t as [|c t IH]; [reflexivity|].
  cbn [PyStr.replace_go PyStr.map_chars String.prefix String.length Nat.sub].
  destruct (Ascii.ascii_dec "." c) as [<-|Hne].
  - rewrite IH. cbn.
    replace (String.prefix "" t) with true by (destruct t; reflexivity).
    reflexivity.
  - destruct (Ascii.eqb_spec c "."); [congruence|].
    rewrite IH. reflexivity.
Qed.

Lemma map_chars_compose f g s :
  PyStr.map_chars g (PyStr.map_chars f s) = PyStr.map_chars (fun c => g (f c)) s.
Proof. induction s as [|c s IH]; cbn; [reflexivity|rewrite IH; reflexivity]. Qed.

Lemma normalized_chars s :
  _normalized s = PyStr.rstrip "_" (PyStr.map_chars normalize_char s).
Proof.
  unfold _normalized, PyStr.upper. rewrite replace_dot, map_chars_compose.
  reflexivity.
Qed.

Lemma normalize_char_idem c : normalize_char (normalize_char c) = normalize_char c.
Proof. destruct c as [[] [] [] [] [] [] [] []]; reflexivity. Qed.

Lemma normalize_char_shape c :
  normalize_char c <> "."%char /\ PyStr.is_lower (normalize_char c) = false.
Proof. destruct c as [[] [] [] [] [] [] [] []]; split; (discriminate || reflexivity). Qed.

Lemma mem_char_map c f s :
  PyStr.mem_char c (PyStr.map_chars f s) = true -> exists d, c = f d.
Proof.
  induction s as [|a s IH]; cbn; [discriminate|].
  intros H. apply orb_true_iff in H as [H|H]; [|exact (IH H)].
  apply Ascii.eqb_eq in H. eauto.
Qed.

Lemma mem_char_rstrip c chars s :
  PyStr.mem_char c (PyStr.rstrip chars s) = true -> PyStr.mem_char c s = true.
Proof.
  induction s as [|a s IH]; cbn; [discriminate|].
  destruct (PyStr.rstrip chars s) as [|b r] eqn:E.
  - destruct (PyStr.mem_char a chars); cbn; [discriminate|].
    rewrite orb_false_r. intros ->. reflexivity.
  - cbn [PyStr.mem_char]. intros H. apply orb_true_iff in H as [H|H].
    + rewrite H. reflexivity.
    + rewrite (IH H). apply orb_true_r.
Qed.

Lemma rstrip_idem chars s :
  PyStr.rstrip chars (PyStr.rstrip chars s) = PyStr.rstrip chars s.
Proof.
  induction s as [|a s IH]; [reflexivity|]. cbn [PyStr.rstrip].
  destruct (PyStr.rstrip chars s) as [|b r] eqn:E.
  - destruct (PyStr.mem_char a chars) eqn:Ea; [reflexivity|].
    cbn. rewrite Ea. reflexivity.
  - cbn [PyStr.rstrip] in IH |- *. rewrite IH. reflexivity.
Qed.

Lemma map_chars_fixed f s :
  (forall c, PyStr.mem_char c s = true -> f c = c) -> PyStr.map_chars f s = s.
Proof.
  induction s as [|a s IH]; intros H; [reflexivity|]. cbn.
  rewrite (H a) by (cbn; rewrite Ascii.eqb_refl; reflexivity).
  rewrite IH; [reflexivity|].
  intros c Hc. apply H. cbn. rewrite Hc. apply orb_true_r.
Qed.

Lemma endswith_underscore_cons c d t :
  PyStr.endswith (String c (String d t)) "_" = PyStr.endswith (String d t) "_".
Proof.
  unfold PyStr.endswith. cbn [String.length].
  replace (S (S (String.length t)) - 1)%nat with (S (String.length t)) by lia.
  replace (S (String.length t) - 1)%nat with (String.length t) by lia.
  reflexivity.
Qed.

Lemma rstrip_no_trailing s : PyStr.endswith (PyStr.rstrip "_" s) "_" = false.
Proof.
  induction s as [|a s IH]; [reflexivity|]. cbn [PyStr.rstrip].
  destruct (PyStr.rstrip "_" s) as [|b r] eqn:E.
  - destruct (PyStr.mem_char a "_") eqn:Ea; [reflexivity|].
    cbn in Ea. rewrite orb_false_r in Ea.
    unfold PyStr.endswith. cbn. rewrite Ea. reflexivity.
  - rewrite endswith_underscore_cons. exact IH.
Qed.

Lemma normalized_no_trailing s : PyStr.endswith (_normalized s) "_" = false.
Proof. rewrite normalized_chars. apply rstrip_no_trailing. Qed.

Lemma rstrip_split chars s :
  exists rest,
    s = PyStr.rstrip chars s +:+ rest
    /\ forall c, PyStr.mem_char c rest = true -> PyStr.mem_char c chars = true.
Proof.
  induction s as [|a s (rest & Hs & Hrest)].
  - exists "". split; [reflexivity|]. cbn. discriminate.
  - cbn [PyStr.rstrip]. destruct (PyStr.rstrip chars s) as [|b r] eqn:E.
    + change ("" +:+ rest) with rest in Hs.
      destruct (PyStr.mem_char a chars) eqn:Ea.
      * exists (String a rest). split.
        -- change (String a s = String a rest). rewrite <- Hs. reflexivity.
        -- intros c. cbn. intros H. apply orb_true_iff in H as [H|H]; [|auto].
           apply Ascii.eqb_eq in H. subst. exact Ea.
      * exists rest. split; [|exact Hrest].
        change (String a s = String a rest). rewrite <- Hs. reflexivity.
    + exists rest. split; [|exact Hrest].
      rewrite append_cons, <- Hs. reflexivity.
Qed.

Lemma normalized_stripped s :
  exists rest,
    PyStr.replace (PyStr.upper s) "." "_" = _normalized s +:+ rest
    /\ forall c, PyStr.mem_char c rest = true -> c = "_"%char.
Proof.
  unfold _normalized.
  destruct (rstrip_split "_" (PyStr.replace (PyStr.upper s) "." "_")) as (rest & H & Hr).
  exists rest. split; [exact H|].
  intros c Hc. apply Hr in Hc. cbn in Hc. rewrite orb_false_r in Hc.
  apply Ascii.eqb_eq in Hc. exact Hc.
Qed.

Lemma normalized_mem_char s c :
  PyStr.mem_char c (_normalized s) = true -> c <> "."%char /\ PyStr.is_lower c = false.
Proof.
  intros Hc. rewrite normalized_chars in Hc.
  apply mem_char_rstrip, mem_char_map in Hc as [d ->]. apply normalize_char_shape.
Qed.

(** * The claims *)

Import Examples.

(** ** C1 *)

(** C1, as the specification states it, fails: with the type
    [Union[int, str]] the raw string ["42"] is returned unchanged, as the
    string, because a string already satisfies the union (line 145). *)
Lemma union_int_str_keeps_raw_string :
  outcome (_retrieve int_or_str (env_over {[ "N" := "42" ]}) "") = Ok (VStr "42")
  /\ outcome (_retrieve int_or_str (env_over {[ "N" := "42" ]}) "") <> Ok (VInt 42).
Proof.
  assert (outcome (_retrieve int_or_str (env_over {[ "N" := "42" ]}) "")
          = Ok (VStr "42")) as H by (vm_compute; reflexivity).
  split; [exact H|]. rewrite H. discriminate.
Qed.

(** C1 (amended): for a union-typed variable without custom parser and a
    raw string found in the source, the raw string itself is the result
    when [str] is one of the alternatives; otherwise the alternatives'
    constructors are tried in declared order, those raising [TypeError] are
    skipped, and the first one that does not raise [TypeError] gives the
    result (its value, or its own failure); when all raise [TypeError], so
    does the retrieval. *)
Theorem union_coercion_order (self : EnvVariable.t) (env : instance)
    (prefix raw : string) (args : list pyclass) :
  EnvVariable.type self = TUnion args ->
  EnvVariable.parser self = None ->
  raw_value self env prefix = Some raw ->
  (CStr ∈ args -> outcome (_retrieve self env prefix) = Ok (VStr raw))
  /\ (CStr ∉ args ->
      forall pre t post,
        args = pre ++ t :: post ->
        Forall (fun t' => Builtins.call_class t' raw = Raise TypeError) pre ->
        Builtins.call_class t raw <> Raise TypeError ->
        outcome (_retrieve self env prefix) = Builtins.call_class t raw)
  /\ (CStr ∉ args ->
      Forall (fun t' => Builtins.call_class t' raw = Raise TypeError) args ->
      outcome (_retrieve self env prefix) = Raise TypeError).
Proof.
  intros Ht Hp Hraw.
  rewrite retrieve_outcome, Hraw, (coerce_union _ _ _ _ Ht Hp).
  split; [|split].
  - intros Hin. apply (isinstance_str_any raw) in Hin. rewrite Hin. reflexivity.
  - intros Hnin pre t post -> Hpre Hnot.
    destruct (Builtins.isinstance_any (VStr raw) (pre ++ t :: post)) eqn:E.
    { apply isinstance_str_any in E. contradiction. }
    apply try_union_first; assumption.
  - intros Hnin Hall.
    destruct (Builtins.isinstance_any (VStr raw) args) eqn:E.
    { apply isinstance_str_any in E. contradiction. }
    apply try_union_all_TypeError, Hall.
Qed.

Lemma union_coercion_order_witness :
  outcome (_retrieve none_or_int (env_over {[ "N" := "42" ]}) "") = Ok (VInt 42).
Proof.
  assert (raw_value none_or_int (env_over {[ "N" := "42" ]}) "" = Some "42")
    as Hraw by (vm_compute; reflexivity).
  destruct (union_coercion_order none_or_int (env_over {[ "N" := "42" ]}) "" "42"
              [CNone; CInt] eq_refl eq_refl Hraw) as (_ & H & _).
  refine (H _ [CNone] CInt [] eq_refl _ _).
  - intros Hin. apply elem_of_cons in Hin as [Hin|Hin]; [discriminate|].
    apply elem_of_cons in Hin as [Hin|Hin]; [discriminate|].
    inversion Hin.
  - constructor; [reflexivity|constructor].
  - vm_compute. discriminate.
Defined.

(** The other half of what the loop of lines 149-153 does: a failure that
    is not a [TypeError] ends the retrieval at once. *)
Example optional_int_malformed :
  outcome (_retrieve optional_int (env_over {[ "N" := "4x2" ]}) "") = Raise ValueError.
Proof. vm_compute. reflexivity. Qed.

(** ** C2 *)

(** C2, as the specification states it, fails: the validator is applied to
    the default of a missing variable. *)
Lemma default_is_validated :
  outcome (EnvVariable_call validated_int (env_over unrelated) "")
  = Raise (UserError "too small")
  /\ outcome (EnvVariable_call validated_int (env_over unrelated) "") <> Ok (VInt 5).
Proof.
  assert (outcome (EnvVariable_call validated_int (env_over unrelated) "")
          = Raise (UserError "too small")) as H by (vm_compute; reflexivity).
  split; [exact H|]. rewrite H. discriminate.
Qed.

(** C2 (amended): when the fully-qualified key and every deprecated alias
    are absent from the source, [_retrieve] returns a declared default
    as it is, uncoerced, and emits no warning, and fails with the
    [KeyError] naming the fully-qualified key when there is no default;
    [__call__] then still applies the validator, if any, to that default.
    When a raw value is found (under the key or a deprecated alias) and
    fails to coerce, that failure is the result: the default is not
    substituted. *)
Theorem missing_variable_default (self : EnvVariable.t) (env : instance) (prefix : string) :
  let full_name := prefix +:+ _normalized (EnvVariable.name self) in
  (source env !! full_name = None ->
   Forall (fun d => source env !! deprecated_key prefix d = None)
          (deprecations_list (EnvVariable.deprecations self)) ->
   outcome (_retrieve self env prefix)
   = match EnvVariable.default self with
     | Default d => Ok d
     | NoDefault => Raise (KeyError (full_name +:+ " is not set"))
     end
   /\ (forall msg, EvWarn msg ∉ events (_retrieve self env prefix))
   /\ outcome (EnvVariable_call self env prefix)
      = match EnvVariable.default self, EnvVariable.validator self with
        | Default d, Some validator => _ ← validator d; Ok d
        | Default d, None => Ok d
        | NoDefault, _ => Raise (KeyError (full_name +:+ " is not set"))
        end)
  /\ (forall raw e,
        raw_value self env prefix = Some raw ->
        coerce self env raw = Raise e ->
        outcome (_retrieve self env prefix) = Raise e
        /\ outcome (EnvVariable_call self env prefix) = Raise e).
Proof.
  intros full_name. split.
  - intros Habs Hdeps.
    pose proof (retrieve_absent self env prefix Habs Hdeps) as Hr.
    fold full_name in Hr. split; [|split].
    + rewrite Hr. reflexivity.
    + intros msg. rewrite Hr. cbn [events fst].
      intros Hin. apply elem_of_cons in Hin as [Hin|Hin]; [discriminate|].
      apply list_elem_of_fmap in Hin as (k & Hk & _). discriminate.
    + unfold EnvVariable_call. rewrite Hr.
      destruct (EnvVariable.default self) as [|d]; [reflexivity|].
      destruct (EnvVariable.validator self) as [validator|]; [|reflexivity].
      cbn. destruct (validator d) as [[]|e]; reflexivity.
  - intros raw e Hraw He.
    assert (outcome (_retrieve self env prefix) = Raise e) as Hr.
    { rewrite retrieve_outcome, Hraw. exact He. }
    split; [exact Hr|]. apply outcome_bind_raise, Hr.
Qed.

Lemma missing_variable_default_witness :
  outcome (_retrieve validated_int (env_over unrelated) "") = Ok (VInt 5)
  /\ outcome (EnvVariable_call validated_int (env_over unrelated) "")
     = Raise (UserError "too small")
  /\ outcome (_retrieve validated_int (env_over {[ "N" := "x" ]}) "") = Raise ValueError.
Proof.
  destruct (missing_variable_default validated_int (env_over unrelated) "") as [H _].
  assert (source (env_over unrelated)
            !! ("" +:+ _normalized (EnvVariable.name validated_int)) = None)
    as Habs by (vm_compute; reflexivity).
  destruct (H Habs ltac:(constructor)) as (H1 & _ & H2).
  destruct (missing_variable_default validated_int (env_over {[ "N" := "x" ]}) "")
    as [_ H3].
  assert (raw_value validated_int (env_over {[ "N" := "x" ]}) "" = Some "x")
    as Hraw by (vm_compute; reflexivity).
  assert (coerce validated_int (env_over {[ "N" := "x" ]}) "x" = Raise ValueError)
    as Hbad by (vm_compute; reflexivity).
  destruct (H3 "x" ValueError Hraw Hbad) as [H4 _].
  split; [exact H1|]. split; [exact H2|exact H4].
Defined.

(** ** C3 *)

(** C3: when the primary key is present its value is used and nothing
    else happens: one lookup, no warning, no alias scanned.  When it is
    absent, the deprecated names are looked up in list order up to the first
    one present, which supplies the raw value; exactly one warning is
    emitted, naming the deprecated key, the optional version clauses and the
    replacement key, and no later alias is looked up. *)
Theorem deprecated_alias_resolution (self : EnvVariable.t) (env : instance)
    (prefix : string) :
  let full_name := prefix +:+ _normalized (EnvVariable.name self) in
  (forall raw,
     source env !! full_name = Some raw ->
     _retrieve self env prefix = ([EvGet full_name], coerce self env raw))
  /\ (forall pre name deprecated_when removed_when post raw,
        source env !! full_name = None ->
        EnvVariable.deprecations self
        = Some (pre ++ (name, deprecated_when, removed_when) :: post) ->
        Forall (fun d => source env !! deprecated_key prefix d = None) pre ->
        source env !! (prefix +:+ _normalized name) = Some raw ->
        let full_deprecated_name := prefix +:+ _normalized name in
        _retrieve self env prefix
        = (EvGet full_name
             :: (EvGet <$> (deprecated_key prefix <$> pre))
             ++ [EvGet full_deprecated_name;
                 EvWarn (full_deprecated_name +:+ " has been deprecated"
                           +:+ from_option (fun w => " in version " +:+ w) "" deprecated_when
                           +:+ from_option (fun w => " and will be removed in version " +:+ w)
                                 "" removed_when
                           +:+ ". Use " +:+ full_name +:+ " instead")],
           coerce self env raw)).
Proof.
  intros full_name. split.
  - intros raw Hraw. apply retrieve_present, Hraw.
  - intros pre name dw rw post raw Habs Hdeps Hpre Hhit fdn.
    rewrite (retrieve_deprecated self env prefix pre name dw rw post raw Habs);
      [|rewrite Hdeps; reflexivity|assumption|assumption].
    unfold deprecation_message. destruct dw, rw; reflexivity.
Qed.

Lemma deprecated_alias_resolution_witness :
  _retrieve renamed (env_over {[ "OLD_NAME" := "value" ]}) ""
  = ([EvGet "NEW_NAME"; EvGet "OLDER_NAME"; EvGet "OLD_NAME";
      EvWarn "OLD_NAME has been deprecated in version 1.0 and will be removed in version 2.0. Use NEW_NAME instead"],
     Ok (VStr "value"))
  /\ _retrieve renamed (env_over {[ "OLD_NAME" := "value"; "NEW_NAME" := "fresh" ]}) ""
     = ([EvGet "NEW_NAME"], Ok (VStr "fresh")).
Proof.
  split.
  - destruct (deprecated_alias_resolution renamed
                (env_over {[ "OLD_NAME" := "value" ]}) "") as [_ H].
    etransitivity.
    + apply (H [("older.name", None, None)] "old.name" (Some "1.0") (Some "2.0") []
               "value").
      * vm_compute. reflexivity.
      * reflexivity.
      * constructor; [vm_compute; reflexivity|constructor].
      * vm_compute. reflexivity.
    + vm_compute. reflexivity.
  - destruct (deprecated_alias_resolution renamed
                (env_over {[ "OLD_NAME" := "value"; "NEW_NAME" := "fresh" ]}) "")
      as [H _].
    etransitivity.
    + apply (H "fresh"). vm_compute. reflexivity.
    + vm_compute. reflexivity.
Defined.

(** ** C4 *)

(** C4: without custom parser, a raw string found in the source is split
    on the item separator into pieces that, joined by the separator, give
    the raw string back.  A list-typed variable without map yields these
    pieces, as strings, in order.  For a dict-typed variable each piece is
    split at most once on the value separator (in at most two parts, at an
    occurrence of the separator); when every piece splits in a key and a
    value, the mapping is built from the pairs in order, the value under a
    key being that of the last pair with this key (and the optional map is
    then applied to its items); a piece that does not split in two raises
    [ValueError]. *)
Theorem list_and_dict_coercion (self : EnvVariable.t) (env : instance)
    (prefix raw : string) :
  let item_separator := __item_separator__ (cls_settings env) in
  let value_separator := __value_separator__ (cls_settings env) in
  let items := PyStr.split_go item_separator raw 0 None in
  EnvVariable.parser self = None ->
  item_separator <> "" ->
  raw_value self env prefix = Some raw ->
  String.concat item_separator items = raw
  /\ (EnvVariable.type self = TCls CList ->
      EnvVariable.map self = None ->
      outcome (_retrieve self env prefix) = Ok (VList (VStr <$> items)))
  /\ (EnvVariable.type self = TCls CDict ->
      value_separator <> "" ->
      (forall item,
         (List.length (PyStr.split_go value_separator item 0 (Some 1%nat)) <= 2)%nat)
      /\ (forall item k v,
            PyStr.split_go value_separator item 0 (Some 1%nat) = [k; v] ->
            item = k +:+ value_separator +:+ v)
      /\ (forall pairs,
            Forall2 (fun item kv =>
                       PyStr.split_go value_separator item 0 (Some 1%nat) = [kv.1; kv.2])
                    items pairs ->
            let d := fold_left (fun d kv => Builtins.assoc_set String.eqb d kv.1 kv.2)
                               pairs [] in
            (forall k, Builtins.assoc_get String.eqb d k
                       = Builtins.assoc_get String.eqb (reverse pairs) k)
            /\ outcome (_retrieve self env prefix)
               = match EnvVariable.map self with
                 | Some map => VDict <$> dict_of_mapped map d []
                 | None => Ok (str_dict d)
                 end)
      /\ (Exists (fun item => forall k v,
                    PyStr.split_go value_separator item 0 (Some 1%nat) <> [k; v]) items ->
          outcome (_retrieve self env prefix) = Raise ValueError)).
Proof.
  intros isep vsep items Hp Hsep Hraw.
  rewrite retrieve_outcome, Hraw.
  split; [|split].
  - unfold items. rewrite split_go_concat by assumption. reflexivity.
  - intros Ht Hm. apply coerce_list; assumption.
  - intros Ht Hvsep. rewrite (coerce_dict _ _ _ Hp Ht Hsep).
    fold isep vsep items. split; [|split; [|split]].
    + intros item. apply split_go_once_length.
    + intros item k v E.
      pose proof (split_go_concat vsep item 0 (Some 1%nat) Hvsep) as Hc.
      rewrite E in Hc. cbn in Hc. symmetry. exact Hc.
    + intros pairs Hpairs. split.
      * intros k. rewrite assoc_get_fold_set.
        destruct (Builtins.assoc_get String.eqb (reverse pairs) k); reflexivity.
      * rewrite (dict_of_items_pairs _ _ _ _ Hvsep Hpairs). reflexivity.
    + intros Hbad. rewrite (dict_of_items_unsplit _ _ _ Hvsep Hbad). reflexivity.
Qed.

Lemma list_and_dict_coercion_witness :
  outcome (_retrieve (var (TCls CList) "l" NoDefault) (env_over {[ "L" := "a,b,c" ]}) "")
  = Ok (VList [VStr "a"; VStr "b"; VStr "c"])
  /\ outcome (_retrieve (var (TCls CDict) "d" NoDefault) (env_over {[ "D" := "a:1,a:2" ]}) "")
     = Ok (VDict [(VStr "a", VStr "2")]).
Proof.
  split.
  - assert (raw_value (var (TCls CList) "l" NoDefault) (env_over {[ "L" := "a,b,c" ]}) ""
            = Some "a,b,c") as Hraw by (vm_compute; reflexivity).
    destruct (list_and_dict_coercion (var (TCls CList) "l" NoDefault)
                (env_over {[ "L" := "a,b,c" ]}) "" "a,b,c" eq_refl
                ltac:(discriminate) Hraw) as (_ & H & _).
    exact (H eq_refl eq_refl).
  - assert (raw_value (var (TCls CDict) "d" NoDefault) (env_over {[ "D" := "a:1,a:2" ]}) ""
            = Some "a:1,a:2") as Hraw by (vm_compute; reflexivity).
    destruct (list_and_dict_coercion (var (TCls CDict) "d" NoDefault)
                (env_over {[ "D" := "a:1,a:2" ]}) "" "a:1,a:2" eq_refl
                ltac:(discriminate) Hraw) as (_ & _ & H).
    destruct (H eq_refl ltac:(discriminate)) as (_ & _ & H2 & _).
    destruct (H2 [("a", "1"); ("a", "2")]) as [_ H3].
    + repeat constructor.
    + exact H3.
Defined.

(** ** C5 *)

(** C5: construction is the first pass over the variable descriptors and
    nested schemas followed by the derived variables in declaration order.
    Each derived variable is called on the instance of the first pass
    extended with the derived variables declared before it; a failure of
    either pass is the outcome of the construction, which then yields no
    instance; and an instance that is returned has an attribute for every
    declared member. *)
Theorem construction_two_phase (environ : gmap string string) (cls : EnvClass)
    (source : option (gmap string string)) (parent : option instance) :
  let construct := fun e self => Env_init environ e source (Some self) in
  let self0 :=
    Instance (source_or source environ)
      (init_full_prefix parent (__prefix__ (cfg cls))) (cfg cls) [] in
  let pass1 := first_pass construct (class_dict cls) self0 in
  let derived := derived_members (class_dict cls) in
  Env_init environ cls source parent = (self1 ← pass1; init_derived derived self1)
  /\ (forall self1 pre n d post selfk,
        outcome pass1 = Ok self1 ->
        derived = pre ++ (n, d) :: post ->
        outcome (init_derived pre self1) = Ok selfk ->
        (forall name, is_Some (getattr self1 name) -> is_Some (getattr selfk name))
        /\ (forall n' d', (n', d') ∈ pre -> is_Some (getattr selfk n'))
        /\ outcome (Env_init environ cls source parent)
           = outcome (x ← lift (DerivedVariable_call d selfk);
                      init_derived post (setattr selfk n (AVal x)))
        /\ (forall e, DerivedVariable_call d selfk = Raise e ->
                      outcome (Env_init environ cls source parent) = Raise e))
  /\ (forall e, outcome pass1 = Raise e ->
                outcome (Env_init environ cls source parent) = Raise e)
  /\ (forall inst,
        outcome (Env_init environ cls source parent) = Ok inst ->
        forall name m a,
          (name, m) ∈ class_dict cls -> attr_name name m = Some a ->
          is_Some (getattr inst a)).
Proof.
  intros construct self0 pass1 derived.
  pose proof (Env_init_two_phase environ cls source parent) as Heq.
  fold construct self0 pass1 derived in Heq.
  split; [exact Heq|]. split; [|split].
  - intros self1 pre n d post selfk H1 Hsplit Hk.
    assert (outcome (Env_init environ cls source parent)
            = outcome (x ← lift (DerivedVariable_call d selfk);
                       init_derived post (setattr selfk n (AVal x)))) as Hout.
    { rewrite Heq, (outcome_bind_ok _ _ _ H1), Hsplit, init_derived_app.
      rewrite (outcome_bind_ok _ _ _ Hk). reflexivity. }
    split; [|split; [|split]].
    + apply init_derived_frame in Hk as (_ & _ & _ & Ha). exact Ha.
    + intros n' d' Hin. eapply init_derived_assigned; eassumption.
    + exact Hout.
    + intros e He. rewrite Hout, He. reflexivity.
  - intros e He. rewrite Heq. apply outcome_bind_raise, He.
  - intros inst Hinst name m a Hin Ha. rewrite Heq in Hinst.
    apply outcome_bind_inv in Hinst as (self1 & H1 & H2).
    pose proof (first_pass_assigned _ _ _ _ _ _ H1 Hin) as Hfirst.
    destruct (init_derived_frame _ _ _ H2) as (_ & _ & _ & Hkeep).
    destruct m as [v|e|d|]; cbn in Ha; try discriminate; injection Ha as <-.
    + apply Hkeep, Hfirst.
    + apply Hkeep, Hfirst.
    + eapply init_derived_assigned; [exact H2|].
      apply derived_members_elem, Hin.
Qed.

Lemma construction_two_phase_witness :
  exists inst,
    outcome (Env_init ∅ Service (Some {[ "SVC_PORT" := "8080"; "SVC_DB_HOST" := "h" ]}) None)
    = Ok inst
    /\ getattr inst "next_port" = Some (AVal (VInt 8081))
    /\ is_Some (getattr inst "port") /\ is_Some (getattr inst "db").
Proof.
  set (src := ({[ "SVC_PORT" := "8080"; "SVC_DB_HOST" := "h" ]} : gmap string string)).
  destruct (construction_two_phase ∅ Service (Some src) None) as (_ & _ & _ & H).
  destruct (outcome (Env_init ∅ Service (Some src) None)) as [inst|e] eqn:E.
  - exists inst. split; [reflexivity|]. split.
    + revert E. vm_compute. intros [= <-]. reflexivity.
    + split.
      * apply (H inst eq_refl "port" (MVar (var (TCls CInt) "port" NoDefault)) "port");
          [|reflexivity].
        unfold Service. cbn [class_dict].
        apply list_elem_of_further, list_elem_of_here.
      * apply (H inst eq_refl "db" (MEnv DB) "db"); [|reflexivity].
        unfold Service. cbn [class_dict].
        apply list_elem_of_further, list_elem_of_further, list_elem_of_here.
  - exfalso. revert E. vm_compute. discriminate.
Defined.

(** A failing derivation leaves no instance, whatever the first pass
    assigned. *)
Example failing_derivation_no_instance :
  outcome (Env_init ∅
             (Class Env_settings
                [("port", MVar (var (TCls CInt) "port" NoDefault));
                 ("bad", MDer (DerivedVariable.Make (TCls CStr) port_plus_one))])
             (Some {[ "PORT" := "1" ]}) None)
  = Raise TypeError.
Proof. vm_compute. reflexivity. Qed.

(** ** C6 *)

(** C6: the full prefix of a constructed object is the parent's full
    prefix (empty without parent) followed by the normalized own prefix,
    with one underscore appended when that is not empty and does not end
    with an underscore; it is thus empty or ends with an underscore, and
    every variable of the schema is looked up under the full prefix followed
    by its normalized name.  The normalized own prefix is the own prefix
    upper-cased and with its dots replaced by underscores, less a suffix
    made of underscores only; it does not end with an underscore, and it
    holds neither a dot nor a lower-case letter. *)
Theorem full_prefix_composition (environ : gmap string string) (cls : EnvClass)
    (source : option (gmap string string)) (parent : option instance)
    (inst : instance) :
  outcome (Env_init environ cls source parent) = Ok inst ->
  let own := _normalized (__prefix__ (cfg cls)) in
  let base := from_option _full_prefix "" parent +:+ own in
  _full_prefix inst
  = (if decide (base <> "" /\ PyStr.endswith base "_" = false) then base +:+ "_" else base)
  /\ (_full_prefix inst = "" \/ PyStr.endswith (_full_prefix inst) "_" = true)
  /\ (forall name v,
        (name, MVar v) ∈ class_dict cls ->
        EvGet (_full_prefix inst +:+ _normalized (EnvVariable.name v))
          ∈ events (Env_init environ cls source parent))
  /\ (exists rest,
        PyStr.replace (PyStr.upper (__prefix__ (cfg cls))) "." "_" = own +:+ rest
        /\ forall c, PyStr.mem_char c rest = true -> c = "_"%char)
  /\ PyStr.endswith own "_" = false
  /\ (forall c, PyStr.mem_char c own = true -> c <> "."%char /\ PyStr.is_lower c = false).
Proof.
  intros Hinst own base.
  destruct (Env_init_frame _ _ _ _ _ Hinst) as (_ & Hp & _ & _).
  cbn [_full_prefix] in Hp.
  assert (init_full_prefix parent (__prefix__ (cfg cls))
          = if decide (base <> "" /\ PyStr.endswith base "_" = false)
            then base +:+ "_" else base) as Hformula.
  { unfold init_full_prefix.
    replace (match parent with Some p => _full_prefix p | None => "" end)
      with (from_option _full_prefix "" parent) by (destruct parent; reflexivity).
    fold own. fold base.
    destruct (String.eqb_spec base "") as [He|He];
      destruct (PyStr.endswith base "_") eqn:Hend; cbn;
      destruct (decide _) as [[? ?]|Hn]; try reflexivity; try congruence.
    exfalso. apply Hn. split; [assumption|reflexivity]. }
  rewrite Hp, Hformula. split; [reflexivity|]. split; [|split].
  - destruct (decide _) as [_|Hn].
    + right. apply endswith_append.
    + destruct (String.eqb_spec base "") as [He|He]; [left; exact He|].
      right. destruct (PyStr.endswith base "_") eqn:Hend; [reflexivity|].
      exfalso. apply Hn. split; [assumption|reflexivity].
  - intros name v Hin. rewrite <- Hformula.
    pose proof Hinst as Hinst'.
    rewrite Env_init_two_phase in Hinst' |- *.
    apply outcome_bind_inv in Hinst' as (self1 & H1 & _).
    rewrite (events_bind_ok _ _ _ H1). apply elem_of_app. left.
    exact (first_pass_lookups _ _ _ _ _ _ H1 Hin).
  - split; [apply normalized_stripped|].
    split; [apply normalized_no_trailing|apply normalized_mem_char].
Qed.

Lemma full_prefix_composition_witness :
  exists store,
    outcome (Env_init ∅ Store (Some {[ "MY_APP_DB_HOST_NAME" := "h" ]})
               (Some (Instance {[ "MY_APP_DB_HOST_NAME" := "h" ]} "MY_APP_"
                        (with_prefix "my.app_") [])))
    = Ok store
    /\ _full_prefix store = "MY_APP_DB_"
    /\ EvGet "MY_APP_DB_HOST_NAME"
         ∈ events (Env_init ∅ Store (Some {[ "MY_APP_DB_HOST_NAME" := "h" ]})
                     (Some (Instance {[ "MY_APP_DB_HOST_NAME" := "h" ]} "MY_APP_"
                              (with_prefix "my.app_") [])))
    /\ PyStr.replace (PyStr.upper "db.") "." "_" = "DB_"
    /\ PyStr.endswith (_normalized "db.") "_" = false.
Proof.
  set (src := ({[ "MY_APP_DB_HOST_NAME" := "h" ]} : gmap string string)).
  set (site := Instance src "MY_APP_" (with_prefix "my.app_") []).
  destruct (outcome (Env_init ∅ Store (Some src) (Some site))) as [store|e] eqn:E.
  - exists store. split; [reflexivity|].
    destruct (full_prefix_composition ∅ Store (Some src) (Some site) store E)
      as (Hp & _ & Hk & _ & Hend & _).
    assert (_full_prefix store = "MY_APP_DB_") as Hdb.
    { rewrite Hp. vm_compute. reflexivity. }
    split; [exact Hdb|]. split; [|split; [reflexivity|exact Hend]].
    specialize (Hk "host" (var (TCls CStr) "host.name" NoDefault)
                  ltac:(apply list_elem_of_here)).
    rewrite Hdb in Hk. exact Hk.
  - exfalso. revert E. vm_compute. discriminate.
Defined.

(** The example of the specification: [HOST] in the schema of prefix [DB]
    nested in the schema of prefix [APP] is read from [APP_DB_HOST], and
    from no other key. *)
Example nested_prefix_lookup :
  events (Env_init ∅ App (Some {[ "APP_DB_HOST" := "h" ]}) None) = [EvGet "APP_DB_HOST"]
  /\ (exists app db,
        outcome (Env_init ∅ App (Some {[ "APP_DB_HOST" := "h" ]}) None) = Ok app
        /\ getattr app "db" = Some (AEnv db)
        /\ getattr db "host" = Some (AVal (VStr "h"))).
Proof.
  split; [vm_compute; reflexivity|].
  destruct (outcome (Env_init ∅ App (Some {[ "APP_DB_HOST" := "h" ]}) None))
    as [app|e] eqn:E; [|exfalso; revert E; vm_compute; discriminate].
  exists app.
  destruct (getattr app "db") as [[v|db]|] eqn:Edb;
    try (exfalso; revert E Edb; vm_compute; intros [= <-]; discriminate).
  exists db. split; [reflexivity|]. split; [reflexivity|].
  revert E Edb. vm_compute. intros [= <-] [= <-]. reflexivity.
Qed.

(** The same with names that normalizing changes: lower case, dots and a
    trailing underscore. *)
Example nested_prefix_lookup_normalized :
  events (Env_init ∅ Site (Some {[ "MY_APP_DB_HOST_NAME" := "h" ]}) None)
  = [EvGet "MY_APP_DB_HOST_NAME"]
  /\ (exists site store,
        outcome (Env_init ∅ Site (Some {[ "MY_APP_DB_HOST_NAME" := "h" ]}) None) = Ok site
        /\ _full_prefix site = "MY_APP_"
        /\ getattr site "store" = Some (AEnv store)
        /\ _full_prefix store = "MY_APP_DB_"
        /\ getattr store "host" = Some (AVal (VStr "h"))).
Proof.
  split; [vm_compute; reflexivity|].
  destruct (outcome (Env_init ∅ Site (Some {[ "MY_APP_DB_HOST_NAME" := "h" ]}) None))
    as [site|e] eqn:E; [|exfalso; revert E; vm_compute; discriminate].
  exists site.
  destruct (getattr site "store") as [[v|store]|] eqn:Edb;
    try (exfalso; revert E Edb; vm_compute; intros [= <-]; discriminate).
  exists store. split; [reflexivity|].
  revert E Edb. vm_compute. intros [= <-] [= <-]. repeat split; reflexivity.
Qed.

(** ** C7 *)

(** The declaration-time check, case by case.  For a class the
    declaration fails exactly when the default is not the sentinel and is
    not an instance of the class; for a union it fails exactly when the
    default is not an instance of one of the alternatives, the sentinel
    included. *)
Lemma declaration_check (type : pytype) (name : string)
    (parser : option (string -> result value))
    (validator : option (value -> result unit)) (map : option MapType)
    (default : default_t) (deprecations : option (list DeprecationInfo))
    (help help_type help_default : option string) :
  EnvVariable_init type name parser validator map default deprecations
    help help_type help_default
  = if match type, default with
       | TCls _, NoDefault => true
       | TCls c, Default v => Builtins.isinstance v c
       | TUnion _, NoDefault => false
       | TUnion args, Default v => Builtins.isinstance_any v args
       end
    then Ok (EnvVariable.Make type name parser validator map default deprecations
               help help_type help_default)
    else Raise TypeError.
Proof.
  unfold EnvVariable_init.
  destruct type as [c|args], default as [|v]; cbn; try reflexivity.
  - destruct (Builtins.isinstance v c); reflexivity.
  - destruct (Builtins.isinstance_any v args); reflexivity.
Qed.

(** C7 fails on the code: a union-typed variable declared without default
    is rejected with a [TypeError], whatever the union, while the same
    declaration with a class is accepted. *)
Theorem union_without_default_rejected (args : list pyclass) (c : pyclass)
    (name : string) :
  EnvVariable_init (TUnion args) name None None None NoDefault None None None None
  = Raise TypeError
  /\ EnvVariable_init (TCls c) name None None None NoDefault None None None None
     = Ok (var (TCls c) name NoDefault).
Proof. rewrite !declaration_check. split; reflexivity. Qed.

(** ** C8 *)

(** C8 fails on the code in two places.  For a schema without prefix the
    displayed key has a leading underscore that the key read at
    construction does not have; and nested schemas are visited level by
    level (the deepest classes last), not depth-first. *)
Theorem help_info_prefix_and_order (str_value : value -> string)
    (union_name : list pyclass -> result string) :
  help_info str_value union_name Flat false = Ok [("``_FOO``", "``str``", "", "")]
  /\ events (Env_init ∅ Flat (Some {[ "FOO" := "bar" ]}) None) = [EvGet "FOO"]
  /\ display_keys (help_info str_value union_name Tree true)
     = ["``T_B_X``"; "``T_A_X``"; "``T_B_B1_X``"; "``T_A_A1_X``"].
Proof. split; [|split]; vm_compute; reflexivity. Qed.

(** The parts of C8 that hold: the sentinel is displayed as the empty
    string, and the entries of one class come sorted by declared name. *)
Lemma str_default_sentinel (str_value : value -> string) :
  str_default str_value NoDefault = "".
Proof. reflexivity. Qed.

(** ** C9 *)

(** C9: an empty source mapping is falsy, so construction from it is
    construction from the process environment: the same events, the same
    outcome, and the instance holds the process environment as its
    source. *)
Theorem empty_source_reads_environ (environ : gmap string string) (cls : EnvClass)
    (parent : option instance) :
  Env_init environ cls (Some ∅) parent = Env_init environ cls None parent
  /\ (forall inst,
        outcome (Env_init environ cls (Some ∅) parent) = Ok inst ->
        source inst = environ).
Proof.
  split.
  - revert parent. induction cls as [k d IH] using EnvClass_tree_ind.
    intros parent. rewrite !Env_init_unfold. cbn [class_dict cfg source_or].
    destruct (decide (∅ = ∅)) as [_|Hne]; [|congruence].
    f_equal. apply init_members_ext.
    eapply Forall_impl; [exact IH|].
    intros e He self. apply He.
  - intros inst Hinst.
    destruct (Env_init_frame _ _ _ _ _ Hinst) as (Hs & _).
    rewrite Hs. cbn. destruct (decide (∅ = ∅)); congruence.
Qed.

Lemma empty_source_reads_environ_witness :
  exists inst,
    outcome (Env_init {[ "FOO" := "bar" ]} Flat (Some ∅) None) = Ok inst
    /\ source inst = {[ "FOO" := "bar" ]}
    /\ getattr inst "foo" = Some (AVal (VStr "bar")).
Proof.
  destruct (empty_source_reads_environ {[ "FOO" := "bar" ]} Flat None) as [_ H].
  destruct (outcome (Env_init {[ "FOO" := "bar" ]} Flat (Some ∅) None))
    as [inst|e] eqn:E.
  - exists inst. split; [reflexivity|]. split; [exact (H inst eq_refl)|].
    revert E. vm_compute. intros [= <-]. reflexivity.
  - exfalso. revert E. vm_compute. discriminate.
Defined.

(** With [FOO] set in the process environment only, construction from the
    empty mapping looks [FOO] up there; a mapping that holds some other key
    is used as it is, and [FOO] is then missing. *)
Example empty_source_versus_other_source :
  events (Env_init {[ "FOO" := "bar" ]} Flat (Some ∅) None) = [EvGet "FOO"]
  /\ outcome (Env_init {[ "FOO" := "bar" ]} Flat (Some {[ "X" := "y" ]}) None)
     = Raise (KeyError "FOO is not set").
Proof. split; vm_compute; reflexivity. Qed.

(** ** C10 *)

(** C10: for a list-, tuple- or set-typed variable without custom parser
    and without map, a raw value found in the source (under the key or a
    deprecated alias) and equal to the empty string gives the collection
    whose only element is the empty string. *)
Theorem empty_raw_single_element (self : EnvVariable.t) (env : instance)
    (prefix : string) (c : pyclass) :
  EnvVariable.type self = TCls c ->
  c = CList \/ c = CTuple \/ c = CSet ->
  EnvVariable.parser self = None ->
  EnvVariable.map self = None ->
  __item_separator__ (cls_settings env) <> "" ->
  raw_value self env prefix = Some "" ->
  outcome (_retrieve self env prefix)
  = Ok match c with
       | CList => VList [VStr ""]
       | CTuple => VTuple [VStr ""]
       | _ => VSet [VStr ""]
       end.
Proof.
  intros Ht Hc Hp Hm Hsep Hraw.
  rewrite retrieve_outcome, Hraw.
  destruct Hc as [-> | [-> | ->]].
  - rewrite coerce_list by assumption. reflexivity.
  - rewrite coerce_tuple by assumption. reflexivity.
  - rewrite coerce_set by assumption. reflexivity.
Qed.

Lemma empty_raw_single_element_witness :
  outcome (_retrieve (var (TCls CSet) "s" NoDefault) (env_over {[ "S" := "" ]}) "")
  = Ok (VSet [VStr ""]).
Proof.
  apply (empty_raw_single_element (var (TCls CSet) "s" NoDefault)
           (env_over {[ "S" := "" ]}) "" CSet eq_refl).
  - right. right. reflexivity.
  - reflexivity.
  - reflexivity.
  - discriminate.
  - vm_compute. reflexivity.
Defined.

(** * Further properties *)

(** ** Normalized names *)

(** Normalizing is idempotent, and a normalized name never ends with an
    underscore and contains neither a dot nor a lower-case ASCII letter. *)
Theorem normalized_canonical (name : string) :
  _normalized (_normalized name) = _normalized name
  /\ PyStr.endswith (_normalized name) "_" = false
  /\ (forall c, PyStr.mem_char c (_normalized name) = true ->
                c <> "."%char /\ PyStr.is_lower c = false).
Proof.
  assert (forall c, PyStr.mem_char c (_normalized name) = true ->
                    exists d, c = normalize_char d) as Himg.
  { intros c Hc. rewrite normalized_chars in Hc.
    apply mem_char_rstrip, mem_char_map in Hc. exact Hc. }
  split; [|split].
  - rewrite (normalized_chars (_normalized name)).
    rewrite map_chars_fixed.
    + rewrite normalized_chars. apply rstrip_idem.
    + intros c Hc. destruct (Himg c Hc) as [d ->]. apply normalize_char_idem.
  - rewrite normalized_chars. apply rstrip_no_trailing.
  - intros c Hc. destruct (Himg c Hc) as [d ->]. apply normalize_char_shape.
Qed.

Lemma normalized_canonical_witness :
  _normalized "db.host_" = "DB_HOST"
  /\ _normalized (_normalized "db.host_") = _normalized "db.host_"
  /\ PyStr.endswith (_normalized "db.host_") "_" = false
  /\ "H"%char <> "."%char /\ PyStr.is_lower "H" = false.
Proof.
  destruct (normalized_canonical "db.host_") as (H1 & H2 & H3).
  split; [reflexivity|]. split; [exact H1|]. split; [exact H2|].
  apply H3. reflexivity.
Defined.

(** ** Booleans *)

Lemma lower_char_not_upper c : PyStr.is_upper (PyStr.lower_char c) = false.
Proof. destruct c as [[] [] [] [] [] [] [] []]; reflexivity. Qed.

Lemma lower_upper_char c : PyStr.lower_char (PyStr.upper_char c) = PyStr.lower_char c.
Proof. destruct c as [[] [] [] [] [] [] [] []]; reflexivity. Qed.

Lemma lower_lower_char c : PyStr.lower_char (PyStr.lower_char c) = PyStr.lower_char c.
Proof. destruct c as [[] [] [] [] [] [] [] []]; reflexivity. Qed.

Lemma map_chars_ext f g s :
  (forall c, f c = g c) -> PyStr.map_chars f s = PyStr.map_chars g s.
Proof. intros H. induction s as [|c s IH]; cbn; [reflexivity|]. rewrite H, IH. reflexivity. Qed.

Lemma lower_upper s : PyStr.lower (PyStr.upper s) = PyStr.lower s.
Proof.
  unfold PyStr.lower, PyStr.upper. rewrite map_chars_compose.
  apply map_chars_ext, lower_upper_char.
Qed.

Lemma lower_lower s : PyStr.lower (PyStr.lower s) = PyStr.lower s.
Proof.
  unfold PyStr.lower. rewrite map_chars_compose.
  apply map_chars_ext, lower_lower_char.
Qed.

Lemma lower_no_upper c s :
  PyStr.mem_char c (PyStr.lower s) = true -> PyStr.is_upper c = false.
Proof.
  unfold PyStr.lower. induction s as [|a s IH]; cbn; [discriminate|].
  intros H. apply orb_true_iff in H as [H|H]; [|exact (IH H)].
  apply Ascii.eqb_eq in H. subst c. apply lower_char_not_upper.
Qed.

Lemma coerce_bool self env raw :
  EnvVariable.type self = TCls CBool ->
  EnvVariable.parser self = None ->
  coerce self env raw
  = Ok (VBool (bool_decide (PyStr.lower raw ∈ __truthy__ (cls_settings env)))).
Proof. intros Ht Hp. unfold coerce. rewrite Hp, Ht. reflexivity. Qed.

(** A bool-typed variable without custom parser never fails on an ASCII
    raw string: the result is [True] exactly when the lower-cased raw
    string is in the truthy set.  It does not depend on the case of the raw
    string, and a member of the truthy set that contains an upper-case
    letter is never matched. *)
Theorem bool_coercion (self : EnvVariable.t) (env : instance) (prefix raw : string) :
  EnvVariable.type self = TCls CBool ->
  EnvVariable.parser self = None ->
  raw_value self env prefix = Some raw ->
  PyStr.isascii raw = true ->
  outcome (_retrieve self env prefix)
  = Ok (VBool (bool_decide (PyStr.lower raw ∈ __truthy__ (cls_settings env))))
  /\ coerce self env (PyStr.upper raw) = coerce self env raw
  /\ coerce self env (PyStr.lower raw) = coerce self env raw
  /\ (forall t c,
        t ∈ __truthy__ (cls_settings env) ->
        PyStr.mem_char c t = true -> PyStr.is_upper c = true ->
        PyStr.lower raw <> t).
Proof.
  intros Ht Hp Hraw _. rewrite retrieve_outcome, Hraw.
  rewrite !(coerce_bool _ _ _ Ht Hp), lower_upper, lower_lower.
  repeat split; try reflexivity.
  intros t c _ Hc Hup Heq. subst t.
  apply lower_no_upper in Hc. congruence.
Qed.

Lemma bool_coercion_witness :
  outcome (_retrieve (var (TCls CBool) "b" NoDefault) (env_over {[ "B" := "YeS" ]}) "")
  = Ok (VBool true)
  /\ coerce (var (TCls CBool) "b" NoDefault) (env_over {[ "B" := "YeS" ]}) "YES"
     = coerce (var (TCls CBool) "b" NoDefault) (env_over {[ "B" := "YeS" ]}) "YeS".
Proof.
  assert (raw_value (var (TCls CBool) "b" NoDefault) (env_over {[ "B" := "YeS" ]}) ""
          = Some "YeS") as Hraw by (vm_compute; reflexivity).
  destruct (bool_coercion (var (TCls CBool) "b" NoDefault)
              (env_over {[ "B" := "YeS" ]}) "" "YeS" eq_refl eq_refl Hraw eq_refl)
    as (H & Hup & _).
  split; [rewrite H; vm_compute; reflexivity|exact Hup].
Defined.

(** ** Values satisfy the declared type *)

Lemma call_class_isinstance c raw v :
  Builtins.call_class c raw = Ok v -> Builtins.isinstance v c = true.
Proof.
  destruct c; cbn.
  - destruct (Builtins.int_of_str raw); [|discriminate]. intros [= <-]. reflexivity.
  - intros [= <-]. reflexivity.
  - intros [= <-]. reflexivity.
  - discriminate.
  - destruct (Builtins.collect _ _); cbn; [|discriminate]. intros [= <-]. reflexivity.
  - destruct (Builtins.collect _ _); cbn; [|discriminate]. intros [= <-]. reflexivity.
  - destruct (Builtins.collect_set _ _ _); cbn; [|discriminate]. intros [= <-]. reflexivity.
  - destruct raw; [|discriminate]. intros [= <-]. reflexivity.
Qed.

Lemma try_union_isinstance args raw v :
  try_union args raw (Raise TypeError) = Ok v -> Builtins.isinstance_any v args = true.
Proof.
  unfold Builtins.isinstance_any.
  induction args as [|t args IH]; cbn; [discriminate|].
  destruct (Builtins.call_class t raw) as [x|e] eqn:E.
  - intros [= <-]. rewrite (call_class_isinstance _ _ _ E). reflexivity.
  - destruct e; try discriminate. intros H. rewrite (IH H). apply orb_true_r.
Qed.

Lemma coerce_check_type self env raw v :
  coerce self env raw = Ok v -> _check_type v (EnvVariable.type self) = true.
Proof.
  unfold coerce. destruct (EnvVariable.parser self) as [p|].
  - cbn. destruct (p raw) as [x|e]; cbn; [|discriminate].
    destruct (_check_type x (EnvVariable.type self)) eqn:E; cbn; [|discriminate].
    intros [= <-]. exact E.
  - destruct (EnvVariable.type self) as [c|args] eqn:Ht.
    + destruct c; cbn.
      * destruct (Builtins.int_of_str raw); [|discriminate]. intros [= <-]. reflexivity.
      * intros [= <-]. reflexivity.
      * intros [= <-]. reflexivity.
      * discriminate.
      * destruct (PyStr.split _ _ _); cbn; [|discriminate].
        destruct (Builtins.collect _ _); cbn; [|discriminate]. intros [= <-]. reflexivity.
      * destruct (PyStr.split _ _ _); cbn; [|discriminate].
        destruct (Builtins.collect _ _); cbn; [|discriminate]. intros [= <-]. reflexivity.
      * destruct (PyStr.split _ _ _); cbn; [|discriminate].
        destruct (Builtins.collect_set _ _ _); cbn; [|discriminate].
        intros [= <-]. reflexivity.
      * destruct (PyStr.split _ _ _); cbn; [|discriminate].
        destruct (dict_of_items _ _ _); cbn; [|discriminate].
        destruct (EnvVariable.map self).
        -- destruct (dict_of_mapped _ _ _); cbn; [|discriminate].
           intros [= <-]. reflexivity.
        -- intros [= <-]. reflexivity.
    + cbn. destruct (Builtins.isinstance_any (VStr raw) args) eqn:E.
      * intros [= <-]. exact E.
      * apply try_union_isinstance.
Qed.

(** A variable that passed the declaration check resolves, when it
    resolves, to a value that satisfies its declared type, whether the
    value comes from the source, through a custom parser, or from the
    default; the validator does not change it. *)
Theorem resolution_type_sound (type : pytype) (name : string)
    (parser : option (string -> result value))
    (validator : option (value -> result unit)) (map : option MapType)
    (default : default_t) (deprecations : option (list DeprecationInfo))
    (help help_type help_default : option string)
    (self : EnvVariable.t) (env : instance) (prefix : string) (v : value) :
  EnvVariable_init type name parser validator map default deprecations
    help help_type help_default = Ok self ->
  outcome (EnvVariable_call self env prefix) = Ok v ->
  outcome (_retrieve self env prefix) = Ok v /\ _check_type v type = true.
Proof.
  intros Hinit Hcall.
  assert (outcome (_retrieve self env prefix) = Ok v) as Hret.
  { unfold EnvVariable_call in Hcall.
    apply outcome_bind_inv in Hcall as (x & Hx & Hv). rewrite Hx. f_equal.
    destruct (EnvVariable.validator self) as [f|]; cbn in Hv.
    - destruct (f x) as [[]|e]; cbn in Hv; congruence.
    - congruence. }
  split; [exact Hret|].
  rewrite declaration_check in Hinit.
  destruct (match type with TCls _ => _ | TUnion _ => _ end) eqn:Hchk;
    [|discriminate].
  injection Hinit as <-. rewrite retrieve_outcome in Hret. cbn in Hret.
  destruct (raw_value _ env prefix) as [raw|].
  - apply coerce_check_type in Hret. exact Hret.
  - destruct default as [|d]; [discriminate|]. injection Hret as <-.
    destruct type; exact Hchk.
Qed.

Lemma resolution_type_sound_witness :
  outcome (_retrieve (var (TCls CInt) "n" NoDefault) (env_over {[ "N" := " 42 " ]}) "")
  = Ok (VInt 42)
  /\ _check_type (VInt 42) (TCls CInt) = true.
Proof.
  apply (resolution_type_sound (TCls CInt) "n" None None None NoDefault None None None None
           (var (TCls CInt) "n" NoDefault) (env_over {[ "N" := " 42 " ]}) "" (VInt 42)).
  - reflexivity.
  - vm_compute. reflexivity.
Defined.

(** ** Effects of a retrieval *)

Lemma events_bind {A B : Type} (m : M A) (f : A -> M B) :
  events (m ≫= f)
  = events m ++ match outcome m with
                | Ok a => events (f a)
                | Raise _ => []
                end.
Proof.
  destruct m as [l [a|e]]; cbn.
  - destruct (f a). reflexivity.
  - rewrite app_nil_r. reflexivity.
Qed.

Lemma lookups_app l1 l2 : lookups (l1 ++ l2) = lookups l1 ++ lookups l2.
Proof. apply omap_app. Qed.

Lemma warnings_app l1 l2 : warnings (l1 ++ l2) = warnings l1 ++ warnings l2.
Proof. apply omap_app. Qed.

Lemma scan_events src prefix full_name deps :
  events (scan_deprecations src prefix full_name deps)
  = scanned src prefix full_name deps.
Proof.
  induction deps as [|[[n dw] rw] deps IH]; [reflexivity|].
  cbn [scan_deprecations scanned]. rewrite events_bind.
  unfold source_get at 1 2. cbn [events outcome fst snd app].
  destruct (src !! (prefix +:+ _normalized n)); [reflexivity|].
  rewrite <- IH. reflexivity.
Qed.

Lemma retrieve_events self env prefix :
  events (_retrieve self env prefix)
  = EvGet (prefix +:+ _normalized (EnvVariable.name self))
      :: match source env !! (prefix +:+ _normalized (EnvVariable.name self)) with
         | Some _ => []
         | None =>
             scanned (source env) prefix
               (prefix +:+ _normalized (EnvVariable.name self))
               (deprecations_list (EnvVariable.deprecations self))
         end.
Proof.
  unfold _retrieve. rewrite events_bind.
  unfold source_get at 1 2. cbn [events outcome fst snd app]. f_equal.
  rewrite events_bind.
  destruct (source env !! (prefix +:+ _normalized (EnvVariable.name self))) as [raw|].
  - destruct (EnvVariable.deprecations self) as [[|]|]; reflexivity.
  - destruct (deprecations_list (EnvVariable.deprecations self)) as [|d deps] eqn:Ed.
    + cbn. destruct (EnvVariable.default self); reflexivity.
    + rewrite scan_events.
      destruct (outcome (scan_deprecations _ _ _ _)) as [[r|]|e];
        [| destruct (EnvVariable.default self) |]; cbn; rewrite app_nil_r; reflexivity.
Qed.

Lemma scanned_effects src prefix full_name deps :
  (exists n, lookups (scanned src prefix full_name deps)
             = take n (deprecated_key prefix <$> deps))
  /\ (List.length (warnings (scanned src prefix full_name deps)) <= 1)%nat
  /\ (warnings (scanned src prefix full_name deps) = []
      <-> first_alias src prefix deps = None).
Proof.
  induction deps as [|[[n dw] rw] deps IH].
  - split; [exists 0%nat; reflexivity|]. split; [cbn; lia|]. split; reflexivity.
  - cbn [scanned first_alias]. unfold deprecated_key at 2. cbn [fst].
    destruct (src !! (prefix +:+ _normalized n)) as [r|].
    + split; [exists 1%nat; reflexivity|]. split; [cbn; lia|].
      split; discriminate.
    + destruct IH as ([k Hk] & Hw & Hiff).
      split; [|split; assumption].
      exists (S k). cbn [lookups omap list_omap] in Hk |- *.
      cbn [fmap list_fmap take]. unfold deprecated_key at 1. cbn [fst].
      f_equal. exact Hk.
Qed.

(** A retrieval looks up the primary key first and then at most the
    deprecated names, in order; it emits at most one warning, and emits one
    exactly when the primary key is absent and a deprecated name supplies
    the value. *)
Theorem retrieval_effects (self : EnvVariable.t) (env : instance) (prefix : string) :
  let full_name := prefix +:+ _normalized (EnvVariable.name self) in
  let deprecations := deprecations_list (EnvVariable.deprecations self) in
  let ev := events (_retrieve self env prefix) in
  (exists n, lookups ev = full_name :: take n (deprecated_key prefix <$> deprecations))
  /\ (List.length (warnings ev) <= 1)%nat
  /\ (warnings ev <> [] <->
      source env !! full_name = None
      /\ is_Some (first_alias (source env) prefix deprecations)).
Proof.
  intros full_name deprecations ev. unfold ev. rewrite retrieve_events.
  fold full_name deprecations.
  destruct (source env !! full_name) as [raw|].
  - split; [exists 0%nat; reflexivity|]. split; [cbn; lia|].
    split; [intros H; exfalso; apply H; reflexivity|]. intros [? _]. discriminate.
  - destruct (scanned_effects (source env) prefix full_name deprecations)
      as ([k Hk] & Hw & Hiff).
    cbn [lookups warnings omap list_omap].
    split; [exists k; f_equal; exact Hk|]. split; [exact Hw|].
    split.
    + intros Hne. split; [reflexivity|].
      destruct (first_alias (source env) prefix deprecations) eqn:Ef; [eauto|].
      exfalso. apply Hne, Hiff. reflexivity.
    + intros [_ [r Hr]] Hnil. apply Hiff in Hnil. congruence.
Qed.

Lemma retrieval_effects_witness :
  warnings (events (_retrieve renamed (env_over {[ "OLD_NAME" := "value" ]}) "")) <> [].
Proof.
  destruct (retrieval_effects renamed (env_over {[ "OLD_NAME" := "value" ]}) "")
    as (_ & _ & H).
  apply H. split; vm_compute; eauto.
Defined.

(** ** Keys read by a construction *)

Lemma prefix_append p s : String.prefix p (p +:+ s) = true.
Proof.
  induction p as [|a p IH]; [destruct s; reflexivity|].
  rewrite append_cons. cbn. destruct (Ascii.ascii_dec a a); [exact IH|congruence].
Qed.

Lemma prefix_trans p q r :
  String.prefix p q = true -> String.prefix q r = true -> String.prefix p r = true.
Proof.
  revert q r. induction p as [|a p IH]; intros q r Hpq Hqr; [destruct r; reflexivity|].
  destruct q as [|b q]; [discriminate|]. destruct r as [|c r]; [discriminate|].
  cbn in *. destruct (Ascii.ascii_dec a b) as [->|]; [|discriminate].
  destruct (Ascii.ascii_dec b c) as [->|]; [|discriminate].
  eapply IH; eassumption.
Qed.

Lemma append_assoc (a b c : string) : (a +:+ b) +:+ c = a +:+ (b +:+ c).
Proof.
  induction a as [|x a IH]; [reflexivity|].
  rewrite !append_cons, IH. reflexivity.
Qed.

Lemma init_full_prefix_extends parent x :
  String.prefix (_full_prefix parent) (init_full_prefix (Some parent) x) = true.
Proof.
  unfold init_full_prefix. destruct (_ && _).
  - rewrite append_assoc. apply prefix_append.
  - apply prefix_append.
Qed.

Lemma scanned_lookups_prefixed src prefix full_name deps :
  Forall (fun k => String.prefix prefix k = true)
         (lookups (scanned src prefix full_name deps)).
Proof.
  induction deps as [|[[n dw] rw] deps IH]; [constructor|].
  cbn [scanned lookups omap list_omap]. constructor; [apply prefix_append|].
  destruct (src !! _); [constructor|exact IH].
Qed.

Lemma call_events self env prefix :
  events (EnvVariable_call self env prefix) = events (_retrieve self env prefix).
Proof.
  unfold EnvVariable_call. rewrite events_bind.
  destruct (outcome (_retrieve self env prefix)) as [x|e]; [|apply app_nil_r].
  destruct (EnvVariable.validator self) as [f|]; [|apply app_nil_r].
  cbn. destruct (f x) as [[]|]; apply app_nil_r.
Qed.

Lemma call_lookups_prefixed self env prefix :
  Forall (fun k => String.prefix prefix k = true)
         (lookups (events (EnvVariable_call self env prefix))).
Proof.
  rewrite call_events, retrieve_events. cbn [lookups omap list_omap].
  constructor; [apply prefix_append|].
  destruct (source env !! _); [constructor|apply scanned_lookups_prefixed].
Qed.

Lemma init_derived_events derived self : events (init_derived derived self) = [].
Proof.
  revert self. induction derived as [|[n d] derived IH]; intros self; [reflexivity|].
  cbn [init_derived]. rewrite events_bind. cbn.
  destruct (DerivedVariable_call d self); [apply IH|reflexivity].
Qed.

Lemma init_members_lookups_prefixed construct items self derived :
  Forall (fun e => forall self',
            Forall (fun k => String.prefix
                               (init_full_prefix (Some self') (__prefix__ (cfg e))) k = true)
                   (lookups (events (construct e self'))))
         (nested_classes items) ->
  Forall (fun k => String.prefix (_full_prefix self) k = true)
         (lookups (events (init_members construct items self derived))).
Proof.
  revert self derived.
  induction items as [|[n m] items IH]; intros self derived H; [constructor|].
  destruct m as [v|e|dv|]; cbn [init_members]; cbn in H.
  - rewrite events_bind, lookups_app. apply Forall_app. split.
    + apply call_lookups_prefixed.
    + destruct (outcome _) as [x|]; [|constructor].
      rewrite <- (setattr_full_prefix self n (AVal x)). apply IH, H.
  - inversion H as [|? ? He Hrest]; subst.
    rewrite events_bind, lookups_app. apply Forall_app. split.
    + eapply Forall_impl; [apply He|]. intros k Hk. cbn beta in Hk.
      eapply prefix_trans; [apply init_full_prefix_extends|exact Hk].
    + destruct (outcome _) as [x|]; [|constructor].
      rewrite <- (setattr_full_prefix self (item_name n e) (AEnv x)).
      apply IH, Hrest.
  - apply IH, H.
  - apply IH, H.
Qed.

(** Every key that a construction reads from the source, whether it ends
    well or not, begins with the full prefix of the object under
    construction: nested objects and deprecated names included. *)
Theorem construction_reads_within_prefix (environ : gmap string string)
    (cls : EnvClass) (source : option (gmap string string)) (parent : option instance) :
  Forall (fun k => String.prefix (init_full_prefix parent (__prefix__ (cfg cls))) k = true)
         (lookups (events (Env_init environ cls source parent))).
Proof.
  revert parent. induction cls as [k d IH] using EnvClass_tree_ind. intros parent.
  rewrite Env_init_unfold, events_bind, lookups_app. apply Forall_app. split.
  - apply (init_members_lookups_prefixed _ _
             (Instance (source_or source environ)
                (init_full_prefix parent (__prefix__ (cfg (Class k d)))) (cfg (Class k d)) [])).
    eapply Forall_impl; [exact IH|]. intros e He self'. apply He.
  - destruct (outcome _) as [st|]; [|constructor].
    rewrite init_derived_events. constructor.
Qed.

(** ** A non-empty source hides the process environment *)

(** Construction from a non-empty mapping does not depend on the process
    environment. *)
Theorem nonempty_source_ignores_environ (environ environ' m : gmap string string)
    (cls : EnvClass) (parent : option instance) :
  m <> ∅ ->
  Env_init environ cls (Some m) parent = Env_init environ' cls (Some m) parent.
Proof.
  intros Hm. revert parent. induction cls as [k d IH] using EnvClass_tree_ind.
  intros parent. rewrite !Env_init_unfold. cbn [source_or].
  destruct (decide (m = ∅)) as [|_]; [contradiction|].
  f_equal. apply init_members_ext.
  eapply Forall_impl; [exact IH|]. intros e He self. apply He.
Qed.

Lemma nonempty_source_ignores_environ_witness :
  Env_init {[ "FOO" := "bar" ]} Flat (Some {[ "X" := "y" ]}) None
  = Env_init ∅ Flat (Some {[ "X" := "y" ]}) None.
Proof.
  apply nonempty_source_ignores_environ.
  intros H. apply (f_equal (fun m : gmap string string => m !! "X")) in H.
  revert H. vm_compute. discriminate.
Defined.

(** ** Attributes of a constructed object *)

Lemma getattr_setattr_inv i n a n' x :
  getattr (setattr i n a) n' = Some x ->
  (n = n' /\ x = a) \/ getattr i n' = Some x.
Proof.
  rewrite getattr_setattr. destruct (String.eqb_spec n n') as [->|].
  - intros [= <-]. left. auto.
  - auto.
Qed.

Lemma first_pass_attrs_from construct items self s1 n :
  outcome (first_pass construct items self) = Ok s1 ->
  is_Some (getattr s1 n) ->
  is_Some (getattr self n)
  \/ exists name m, (name, m) ∈ items /\ m <> MOther
                    /\ (forall d, m <> MDer d) /\ attr_name name m = Some n.
Proof.
  revert self. induction items as [|[n0 m0] items IH]; intros self H Hn.
  - cbn in H. injection H as <-. auto.
  - assert (forall self',
              outcome (first_pass construct items self') = Ok s1 ->
              (is_Some (getattr self' n) -> 
               is_Some (getattr self n)
               \/ exists name m, (name, m) ∈ (n0, m0) :: items /\ m <> MOther
                                 /\ (forall d, m <> MDer d) /\ attr_name name m = Some n) ->
              is_Some (getattr self n)
              \/ exists name m, (name, m) ∈ (n0, m0) :: items /\ m <> MOther
                                /\ (forall d, m <> MDer d) /\ attr_name name m = Some n)
      as Hstep.
    { intros self' H' Hback.
      destruct (IH self' H' Hn) as [Hs|(name & m & Hin & Hm)].
      - apply Hback, Hs.
      - right. exists name, m. split; [apply list_elem_of_further, Hin|exact Hm]. }
    destruct m0 as [v|e|dv|]; cbn [first_pass] in H.
    + apply outcome_bind_inv in H as (x & _ & H).
      apply (Hstep _ H). intros [y Hy].
      apply getattr_setattr_inv in Hy as [[-> _]|Hy]; [|eauto].
      right. exists n, (MVar v).
      split; [apply list_elem_of_here|]. repeat split; congruence.
    + apply outcome_bind_inv in H as (x & _ & H).
      apply (Hstep _ H). intros [y Hy].
      apply getattr_setattr_inv in Hy as [[<- _]|Hy]; [|eauto].
      right. exists n0, (MEnv e).
      split; [apply list_elem_of_here|]. repeat split; congruence.
    + apply (Hstep _ H). auto.
    + apply (Hstep _ H). auto.
Qed.

Lemma init_derived_attrs_from derived self inst n :
  outcome (init_derived derived self) = Ok inst ->
  is_Some (getattr inst n) ->
  is_Some (getattr self n) \/ exists d, (n, d) ∈ derived.
Proof.
  revert self. induction derived as [|[n0 d0] derived IH]; intros self H Hn.
  - cbn in H. injection H as <-. auto.
  - cbn [init_derived] in H. apply outcome_bind_inv in H as (x & _ & H).
    destruct (IH _ H Hn) as [[y Hy]|[d Hd]].
    + apply getattr_setattr_inv in Hy as [[<- _]|Hy]; [|eauto].
      right. exists d0. apply list_elem_of_here.
    + right. exists d. apply list_elem_of_further, Hd.
Qed.

Lemma derived_members_elem_inv n d items :
  (n, d) ∈ derived_members items -> (n, MDer d) ∈ items.
Proof.
  unfold derived_members. intros H. apply list_elem_of_omap in H as ([n' m] & Hin & Hm).
  cbn in Hm. destruct m; try discriminate. injection Hm as <- <-. exact Hin.
Qed.

Lemma item_name_item name e :
  item_name name e = default name (__item__ (cfg e)).
Proof.
  unfold item_name. destruct (__item__ (cfg e)) as [item|]; [|reflexivity].
  cbn. destruct (String.eqb_spec item name) as [->|]; reflexivity.
Qed.

(** A constructed object has exactly the declared attributes: one for every
    variable and derived variable under its declared name, one for every
    nested class under its [__item__] if it has one and under its declared
    name otherwise, and no other. *)
Theorem attributes_are_the_declared_ones (environ : gmap string string)
    (cls : EnvClass) (source : option (gmap string string)) (parent : option instance)
    (inst : instance) :
  outcome (Env_init environ cls source parent) = Ok inst ->
  forall n,
    is_Some (getattr inst n)
    <-> exists name m,
          (name, m) ∈ class_dict cls
          /\ match m with
             | MVar _ | MDer _ => n = name
             | MEnv e => n = default name (__item__ (cfg e))
             | MOther => False
             end.
Proof.
  intros Hinst n. rewrite Env_init_two_phase in Hinst.
  apply outcome_bind_inv in Hinst as (self1 & H1 & H2). split.
  - intros Hn.
    destruct (init_derived_attrs_from _ _ _ _ H2 Hn) as [Hs|[d Hd]].
    + destruct (first_pass_attrs_from _ _ _ _ _ H1 Hs)
        as [[y Hy]|(name & m & Hin & _ & _ & Ha)]; [discriminate|].
      exists name, m. split; [exact Hin|].
      destruct m as [v|e|d|]; cbn in Ha; try discriminate; injection Ha as <-;
        [reflexivity|apply item_name_item|reflexivity].
    + exists n, (MDer d). split; [apply derived_members_elem_inv, Hd|reflexivity].
  - intros (name & m & Hin & Ha).
    pose proof (first_pass_assigned _ _ _ _ _ _ H1 Hin) as Hfirst.
    destruct (init_derived_frame _ _ _ H2) as (_ & _ & _ & Hkeep).
    destruct m as [v|e|d|]; [| | |contradiction].
    + subst n. apply Hkeep, Hfirst.
    + rewrite <- item_name_item in Ha. subst n. apply Hkeep, Hfirst.
    + subst n. eapply init_derived_assigned; [exact H2|]. apply derived_members_elem, Hin.
Qed.

Lemma attributes_are_the_declared_ones_witness :
  exists inst,
    outcome (Env_init ∅ Holder (Some {[ "APP_DB_HOST" := "h" ]}) None) = Ok inst
    /\ is_Some (getattr inst "database") /\ ~ is_Some (getattr inst "db").
Proof.
  set (src := ({[ "APP_DB_HOST" := "h" ]} : gmap string string)).
  destruct (outcome (Env_init ∅ Holder (Some src) None)) as [inst|e] eqn:E;
    [|exfalso; revert E; vm_compute; discriminate].
  exists inst. split; [reflexivity|].
  pose proof (attributes_are_the_declared_ones ∅ Holder (Some src) None inst E) as H.
  split.
  - apply H. exists "db", (MEnv Named).
    split; [apply list_elem_of_here|reflexivity].
  - intros Hn. apply H in Hn as (name & m & Hin & Ha).
    unfold Holder in Hin. cbn [class_dict] in Hin.
    repeat (apply elem_of_cons in Hin as [Hin|Hin];
            [injection Hin as -> ->; cbn in Ha; discriminate|]).
    inversion Hin.
Defined.

(** ** Nested objects *)

Lemma init_full_prefix_same a b x :
  _full_prefix a = _full_prefix b ->
  init_full_prefix (Some a) x = init_full_prefix (Some b) x.
Proof. unfold init_full_prefix. intros ->. reflexivity. Qed.

Lemma first_pass_nested environ src items self s1 n c :
  outcome (first_pass (fun e s => Env_init environ e src (Some s)) items self) = Ok s1 ->
  getattr s1 n = Some (AEnv c) ->
  getattr self n = Some (AEnv c)
  \/ exists name e,
       (name, MEnv e) ∈ items /\ n = item_name name e
       /\ cls_settings c = cfg e
       /\ source c = source_or src environ
       /\ _full_prefix c = init_full_prefix (Some self) (__prefix__ (cfg e)).
Proof.
  revert self. induction items as [|[n0 m0] items IH]; intros self H Hn.
  - cbn in H. injection H as <-. auto.
  - assert (forall a,
              outcome (first_pass (fun e s => Env_init environ e src (Some s))
                         items (setattr self (default n0 (attr_name n0 m0)) a)) = Ok s1 ->
              (n = default n0 (attr_name n0 m0) -> AEnv c = a ->
               exists name e,
                 (name, MEnv e) ∈ (n0, m0) :: items /\ n = item_name name e
                 /\ cls_settings c = cfg e
                 /\ source c = source_or src environ
                 /\ _full_prefix c = init_full_prefix (Some self) (__prefix__ (cfg e))) ->
              getattr self n = Some (AEnv c)
              \/ exists name e,
                   (name, MEnv e) ∈ (n0, m0) :: items /\ n = item_name name e
                   /\ cls_settings c = cfg e
                   /\ source c = source_or src environ
                   /\ _full_prefix c = init_full_prefix (Some self) (__prefix__ (cfg e)))
      as Hstep.
    { intros a H' Hnew.
      destruct (IH _ H' Hn) as [Hy|(name & e & Hin & Hne & Hk & Hs & Hp)].
      - apply getattr_setattr_inv in Hy as [[<- Ha]|Hy]; [|auto].
        right. apply Hnew; [reflexivity|exact Ha].
      - right. exists name, e. split; [apply list_elem_of_further, Hin|].
        repeat split; try assumption.
        rewrite Hp. apply init_full_prefix_same, setattr_full_prefix. }
    destruct m0 as [v|e|dv|]; cbn [first_pass] in H.
    + apply outcome_bind_inv in H as (x & _ & H).
      apply (Hstep (AVal x) H). discriminate.
    + apply outcome_bind_inv in H as (x & Hx & H).
      apply (Hstep (AEnv x) H). intros -> [= ->].
      exists n0, e. split; [apply list_elem_of_here|]. split; [reflexivity|].
      destruct (Env_init_frame _ _ _ _ _ Hx) as (Hs & Hp & Hk & _).
      cbn in Hs, Hp, Hk. auto.
    + destruct (IH _ H Hn) as [Hy|(name & e & Hin & Hrest)]; [auto|].
      right. exists name, e. split; [apply list_elem_of_further, Hin|exact Hrest].
    + destruct (IH _ H Hn) as [Hy|(name & e & Hin & Hrest)]; [auto|].
      right. exists name, e. split; [apply list_elem_of_further, Hin|exact Hrest].
Qed.

Lemma init_derived_nested derived self inst n c :
  outcome (init_derived derived self) = Ok inst ->
  getattr inst n = Some (AEnv c) -> getattr self n = Some (AEnv c).
Proof.
  revert self. induction derived as [|[n0 d0] derived IH]; intros self H Hn.
  - cbn in H. injection H as <-. exact Hn.
  - cbn [init_derived] in H. apply outcome_bind_inv in H as (x & _ & H).
    specialize (IH _ H Hn).
    apply getattr_setattr_inv in IH as [[_ ?]|IH]; [discriminate|exact IH].
Qed.

(** Every nested object held by a constructed object is an instance of a
    nested class of the schema, stored under that class's item name; it
    reads the same source as its parent, and its full prefix is the
    parent's full prefix extended with its own normalized prefix. *)
Theorem nested_objects_extend_parent (environ : gmap string string)
    (cls : EnvClass) (src : option (gmap string string)) (parent : option instance)
    (inst child : instance) (n : string) :
  outcome (Env_init environ cls src parent) = Ok inst ->
  getattr inst n = Some (AEnv child) ->
  exists name e,
    (name, MEnv e) ∈ class_dict cls /\ n = item_name name e
    /\ cls_settings child = cfg e
    /\ source child = source inst
    /\ _full_prefix child = init_full_prefix (Some inst) (__prefix__ (cfg e))
    /\ String.prefix (_full_prefix inst) (_full_prefix child) = true.
Proof.
  intros Hinst Hn.
  destruct (Env_init_frame _ _ _ _ _ Hinst) as (Hs & Hp & _ & _). cbn in Hs, Hp.
  rewrite Env_init_two_phase in Hinst.
  apply outcome_bind_inv in Hinst as (self1 & H1 & H2).
  apply (init_derived_nested _ _ _ _ _ H2) in Hn.
  destruct (first_pass_nested _ _ _ _ _ _ _ H1 Hn)
    as [Hy|(name & e & Hin & Hne & Hk & Hsrc & Hpre)]; [discriminate|].
  exists name, e. split; [exact Hin|]. split; [exact Hne|]. split; [exact Hk|].
  split; [congruence|].
  assert (_full_prefix child = init_full_prefix (Some inst) (__prefix__ (cfg e))) as Hc.
  { rewrite Hpre. apply init_full_prefix_same. cbn. symmetry. exact Hp. }
  split; [exact Hc|]. rewrite Hc. apply init_full_prefix_extends.
Qed.

Lemma nested_objects_extend_parent_witness :
  exists app db,
    outcome (Env_init ∅ App (Some {[ "APP_DB_HOST" := "h" ]}) None) = Ok app
    /\ getattr app "db" = Some (AEnv db)
    /\ source db = source app
    /\ String.prefix (_full_prefix app) (_full_prefix db) = true.
Proof.
  set (src := ({[ "APP_DB_HOST" := "h" ]} : gmap string string)).
  destruct (outcome (Env_init ∅ App (Some src) None)) as [app|e] eqn:E;
    [|exfalso; revert E; vm_compute; discriminate].
  exists app.
  destruct (getattr app "db") as [[v|db]|] eqn:Edb;
    try (exfalso; revert E Edb; vm_compute; intros [= <-]; discriminate).
  exists db. split; [reflexivity|]. split; [reflexivity|].
  destruct (nested_objects_extend_parent ∅ App (Some src) None app db "db" E Edb)
    as (name & e & _ & _ & _ & Hs & _ & Hp).
  split; assumption.
Defined.

(** ** [include] *)

Lemma has_key_get d k : has_key d k = true <-> is_Some (Builtins.assoc_get String.eqb d k).
Proof.
  induction d as [|[k0 v0] d IH]; cbn.
  - split; [discriminate|intros [? ?]; discriminate].
  - destruct (String.eqb k0 k); cbn; [split; eauto|exact IH].
Qed.

Lemma assoc_get_elem {V : Type} (d : list (string * V)) k v :
  Builtins.assoc_get String.eqb d k = Some v -> (k, v) ∈ d.
Proof.
  induction d as [|[k0 v0] d IH]; cbn; [discriminate|].
  destruct (String.eqb_spec k0 k) as [->|].
  - intros [= <-]. apply list_elem_of_here.
  - intros H. apply list_elem_of_further, IH, H.
Qed.

Lemma elem_assoc_get {V : Type} (d : list (string * V)) k v :
  NoDup d.*1 -> (k, v) ∈ d -> Builtins.assoc_get String.eqb d k = Some v.
Proof.
  induction d as [|[k0 v0] d IH]; intros Hnd Hin; [inversion Hin|].
  cbn in Hnd. apply NoDup_cons in Hnd as [Hnot Hnd].
  apply elem_of_cons in Hin as [Heq|Hin].
  - injection Heq as <- <-. cbn. rewrite String.eqb_refl. reflexivity.
  - cbn. destruct (String.eqb_spec k0 k) as [->|]; [|apply IH; assumption].
    exfalso. apply Hnot. apply list_elem_of_fmap. exists (k, v). auto.
Qed.

Lemma filter_keys_NoDup (f : string * member -> bool) d :
  NoDup d.*1 -> NoDup (List.filter f d).*1.
Proof.
  induction d as [|kv d IH]; intros Hnd; [constructor|].
  cbn in Hnd. apply NoDup_cons in Hnd as [Hnot Hnd]. cbn.
  destruct (f kv); [|apply IH, Hnd].
  cbn. apply NoDup_cons. split; [|apply IH, Hnd].
  intros Hin. apply Hnot. apply list_elem_of_fmap in Hin as (x & -> & Hx).
  apply list_elem_of_fmap. exists x. split; [reflexivity|].
  apply list_elem_of_In. apply list_elem_of_In in Hx.
  apply List.filter_In in Hx as [Hx _]. exact Hx.
Qed.

Lemma assoc_get_reverse {V : Type} (d : list (string * V)) k :
  NoDup d.*1 ->
  Builtins.assoc_get String.eqb (reverse d) k = Builtins.assoc_get String.eqb d k.
Proof.
  intros Hnd.
  assert (NoDup (reverse d).*1) as Hnd'.
  { rewrite fmap_reverse, reverse_Permutation. exact Hnd. }
  destruct (Builtins.assoc_get String.eqb d k) as [v|] eqn:E.
  - apply elem_assoc_get; [exact Hnd'|]. apply elem_of_reverse, assoc_get_elem, E.
  - destruct (Builtins.assoc_get String.eqb (reverse d) k) as [v|] eqn:E'; [|reflexivity].
    apply assoc_get_elem in E'. rewrite elem_of_reverse in E'.
    apply (elem_assoc_get _ _ _ Hnd) in E'. congruence.
Qed.

Lemma to_include_get env_spec k :
  NoDup (class_dict env_spec).*1 ->
  Builtins.assoc_get String.eqb (to_include env_spec) k
  = match class_get env_spec k with
    | Some m => if is_member m then Some m else None
    | None => None
    end.
Proof.
  intros Hnd. unfold class_get, to_include.
  pose proof (filter_keys_NoDup (fun kv => is_member kv.2) _ Hnd) as Hnd'.
  destruct (Builtins.assoc_get String.eqb (class_dict env_spec) k) as [m|] eqn:E.
  - destruct (is_member m) eqn:Em.
    + apply elem_assoc_get; [exact Hnd'|].
      apply list_elem_of_In, List.filter_In. split; [|exact Em].
      apply list_elem_of_In, assoc_get_elem, E.
    + destruct (Builtins.assoc_get _ (List.filter _ _) k) as [m'|] eqn:E'; [|reflexivity].
      apply assoc_get_elem, list_elem_of_In, List.filter_In in E' as [Hin Hm'].
      apply list_elem_of_In, (elem_assoc_get _ _ _ Hnd) in Hin. cbn in Hm'. congruence.
  - destruct (Builtins.assoc_get _ (List.filter _ _) k) as [m'|] eqn:E'; [|reflexivity].
    apply assoc_get_elem, list_elem_of_In, List.filter_In in E' as [Hin Hm'].
    apply list_elem_of_In, (elem_assoc_get _ _ _ Hnd) in Hin. congruence.
Qed.

Lemma fold_setattr_class pairs cls :
  fold_left (fun c kv => setattr_class c kv.1 kv.2) pairs cls
  = Class (cfg cls)
      (fold_left (fun d kv => Builtins.assoc_set String.eqb d kv.1 kv.2) pairs (class_dict cls)).
Proof.
  revert cls. induction pairs as [|kv pairs IH]; intros cls; [destruct cls; reflexivity|].
  cbn [fold_left]. rewrite IH. reflexivity.
Qed.

Lemma existsb_has_key_iff d pairs :
  existsb (fun kv : string * member => has_key d kv.1) pairs = true
  <-> exists k m, (k, m) ∈ pairs /\ has_key d k = true.
Proof.
  rewrite existsb_exists. split.
  - intros ([k m] & Hin & Hk). exists k, m. split; [apply list_elem_of_In, Hin|exact Hk].
  - intros (k & m & Hin & Hk). exists (k, m). split; [apply list_elem_of_In, Hin|exact Hk].
Qed.

Lemma include_clash_iff cls env_spec :
  existsb (fun kv : string * member => has_key (class_dict cls) kv.1)
    (to_include env_spec) = true
  <-> exists k m, (k, m) ∈ class_dict env_spec /\ is_member m = true
                  /\ is_Some (class_get cls k).
Proof.
  rewrite existsb_has_key_iff. split.
  - intros (k & m & Hin & Hk). exists k, m.
    apply list_elem_of_In, List.filter_In in Hin as [Hin Hm].
    split; [apply list_elem_of_In, Hin|]. split; [exact Hm|]. apply has_key_get, Hk.
  - intros (k & m & Hin & Hm & Hk). exists k, m. split.
    + apply list_elem_of_In, List.filter_In. split; [apply list_elem_of_In, Hin|exact Hm].
    + apply has_key_get, Hk.
Qed.

Lemma include_fold_get cls env_spec k :
  NoDup (class_dict env_spec).*1 ->
  class_get (fold_left (fun c kv => setattr_class c kv.1 kv.2)
               (to_include env_spec) cls) k
  = match class_get env_spec k with
    | Some m => if is_member m then Some m else class_get cls k
    | None => class_get cls k
    end.
Proof.
  intros Hnd. rewrite fold_setattr_class. unfold class_get at 1. cbn [class_dict].
  rewrite assoc_get_fold_set, assoc_get_reverse
    by (apply filter_keys_NoDup, Hnd).
  rewrite (to_include_get _ _ Hnd).
  destruct (class_get env_spec k) as [m|]; [|reflexivity].
  destruct (is_member m); reflexivity.
Qed.

(** Inclusion at the top level.  It fails exactly when [overwrite] is off
    and a member of the included class has a name that the class
    dictionary already holds.  When it succeeds, the class attributes are
    unchanged and a name resolves to the included member if the included
    class declares one under it, and otherwise to what the class had; with
    [overwrite] off nothing that the class had is changed. *)
Theorem include_merges_members (inherited : string -> bool)
    (cls env_spec : EnvClass) (overwrite : bool) :
  NoDup (class_dict env_spec).*1 ->
  (Env_include inherited cls env_spec None overwrite = Raise ValueError
   <-> overwrite = false
       /\ exists k m, (k, m) ∈ class_dict env_spec /\ is_member m = true
                      /\ is_Some (class_get cls k))
  /\ (forall cls',
        Env_include inherited cls env_spec None overwrite = Ok cls' ->
        cfg cls' = cfg cls
        /\ (forall k,
              class_get cls' k
              = match class_get env_spec k with
                | Some m => if is_member m then Some m else class_get cls k
                | None => class_get cls k
                end)
        /\ (overwrite = false ->
            forall k m, class_get cls k = Some m -> class_get cls' k = Some m)).
Proof.
  intros Hnd. unfold Env_include.
  pose proof (include_clash_iff cls env_spec) as Hclash.
  pose proof (fun k => include_fold_get cls env_spec k Hnd) as Hget.
  split.
  - destruct overwrite; cbn [negb andb].
    + split; [discriminate|intros [? _]; discriminate].
    + destruct (existsb _ _) eqn:E.
      * split; [intros _; split; [reflexivity|apply Hclash; reflexivity]|reflexivity].
      * split; [discriminate|]. intros [_ H]. apply Hclash in H. congruence.
  - intros cls' Hok.
    destruct (negb overwrite && existsb _ _) eqn:E; [discriminate|].
    injection Hok as <-. split; [rewrite fold_setattr_class; reflexivity|].
    split; [exact Hget|].
    intros -> k m Hk. cbn [negb andb] in E. rewrite Hget.
    destruct (class_get env_spec k) as [m'|] eqn:Es; [|exact Hk].
    destruct (is_member m') eqn:Em; [|exact Hk].
    exfalso. assert (existsb (fun kv : string * member => has_key (class_dict cls) kv.1)
                       (to_include env_spec) = true) as Hc; [|congruence].
    apply Hclash. exists k, m'. split; [apply assoc_get_elem, Es|].
    split; [exact Em|]. rewrite Hk. eauto.
Qed.

Lemma include_merges_members_witness :
  exists cls',
    Env_include (fun _ => false) Flat DB None false = Ok cls'
    /\ class_get cls' "host" = class_get DB "host"
    /\ class_get cls' "foo" = class_get Flat "foo".
Proof.
  assert (NoDup (class_dict DB).*1) as Hnd.
  { cbn. apply NoDup_cons. split; [|constructor]. intros H. inversion H. }
  destruct (include_merges_members (fun _ => false) Flat DB false Hnd) as [_ H].
  destruct (Env_include (fun _ => false) Flat DB None false) as [cls'|e] eqn:E;
    [|exfalso; revert E; vm_compute; discriminate].
  exists cls'. split; [reflexivity|].
  destruct (H cls' eq_refl) as (_ & Hget & Hkeep). split.
  - rewrite Hget. reflexivity.
  - destruct (class_get Flat "foo") as [m|] eqn:Ef; [|discriminate].
    apply (Hkeep eq_refl "foo" m Ef).
Defined.

Lemma assoc_set_id {V : Type} (d : list (string * V)) k v :
  Builtins.assoc_get String.eqb d k = Some v -> Builtins.assoc_set String.eqb d k v = d.
Proof.
  induction d as [|[k0 v0] d IH]; cbn; [discriminate|].
  destruct (String.eqb k0 k); [intros [= ->]; reflexivity|].
  intros H. rewrite (IH H). reflexivity.
Qed.

Lemma fold_assoc_set_fixed {V : Type} (pairs : list (string * V)) d :
  (forall k v, (k, v) ∈ pairs -> Builtins.assoc_get String.eqb d k = Some v) ->
  fold_left (fun d kv => Builtins.assoc_set String.eqb d kv.1 kv.2) pairs d = d.
Proof.
  induction pairs as [|[k v] pairs IH]; intros H; [reflexivity|].
  cbn [fold_left fst snd]. rewrite (assoc_set_id d k v) by (apply H, list_elem_of_here).
  apply IH. intros k' v' Hin. apply H, list_elem_of_further, Hin.
Qed.

(** Including the same class again: with [overwrite] on it changes nothing
    more; with [overwrite] off it is rejected as soon as the included class
    has a member, since the first inclusion has put its names in the class
    dictionary. *)
Theorem include_again (inherited : string -> bool) (cls env_spec cls' : EnvClass) :
  NoDup (class_dict env_spec).*1 ->
  (Env_include inherited cls env_spec None true = Ok cls' ->
   Env_include inherited cls' env_spec None true = Ok cls')
  /\ (Env_include inherited cls env_spec None false = Ok cls' ->
      (exists k m, (k, m) ∈ class_dict env_spec /\ is_member m = true) ->
      Env_include inherited cls' env_spec None false = Raise ValueError).
Proof.
  intros Hnd.
  assert (forall c k m,
            (k, m) ∈ to_include env_spec ->
            class_get (fold_left (fun c kv => setattr_class c kv.1 kv.2)
                         (to_include env_spec) c) k = Some m) as Hin_get.
  { intros c k m Hin. rewrite (include_fold_get _ _ _ Hnd).
    apply list_elem_of_In, List.filter_In in Hin as [Hin Hm]. cbn in Hm.
    unfold class_get at 1.
    rewrite (elem_assoc_get _ _ _ Hnd (proj2 (list_elem_of_In _ _) Hin)), Hm.
    reflexivity. }
  split.
  - unfold Env_include. cbn [negb andb]. intros [= <-]. f_equal.
    rewrite (fold_setattr_class _ (fold_left _ _ cls)).
    rewrite fold_assoc_set_fixed.
    + destruct (fold_left _ _ cls). reflexivity.
    + intros k m Hin. apply (Hin_get cls k m Hin).
  - unfold Env_include. cbn [negb andb].
    destruct (existsb _ (to_include env_spec)) eqn:E; [discriminate|].
    intros [= <-] (k & m & Hin & Hm).
    assert (existsb (fun kv : string * member =>
                       has_key (class_dict (fold_left (fun c kv => setattr_class c kv.1 kv.2)
                                              (to_include env_spec) cls)) kv.1)
              (to_include env_spec) = true) as ->; [|reflexivity].
    apply include_clash_iff. exists k, m. split; [exact Hin|]. split; [exact Hm|].
    rewrite (Hin_get cls k m); [eauto|].
    apply list_elem_of_In, List.filter_In. split; [apply list_elem_of_In, Hin|exact Hm].
Qed.

Lemma include_again_witness :
  exists cls',
    Env_include (fun _ => false) Flat DB None false = Ok cls'
    /\ Env_include (fun _ => false) cls' DB None false = Raise ValueError.
Proof.
  assert (NoDup (class_dict DB).*1) as Hnd.
  { cbn. apply NoDup_cons. split; [|constructor]. intros H. inversion H. }
  destruct (Env_include (fun _ => false) Flat DB None false) as [cls'|e] eqn:E;
    [|exfalso; revert E; vm_compute; discriminate].
  exists cls'. split; [reflexivity|].
  destruct (include_again (fun _ => false) Flat DB cls' Hnd) as [_ H].
  apply (H E). exists "host", (MVar (var (TCls CStr) "HOST" NoDefault)).
  split; [apply list_elem_of_here|reflexivity].
Defined.

Lemma Env_init_assigned environ cls src parent inst name m a :
  outcome (Env_init environ cls src parent) = Ok inst ->
  (name, m) ∈ class_dict cls -> attr_name name m = Some a ->
  is_Some (getattr inst a).
Proof.
  intros Hinst Hin Ha. rewrite Env_init_two_phase in Hinst.
  apply outcome_bind_inv in Hinst as (self1 & H1 & H2).
  pose proof (first_pass_assigned _ _ _ _ _ _ H1 Hin) as Hfirst.
  destruct (init_derived_frame _ _ _ H2) as (_ & _ & _ & Hkeep).
  destruct m as [v|e|d|]; cbn in Ha; try discriminate; injection Ha as <-.
  - apply Hkeep, Hfirst.
  - apply Hkeep, Hfirst.
  - eapply init_derived_assigned; [exact H2|]. apply derived_members_elem, Hin.
Qed.

(** Inclusion under a namespace.  It fails exactly when [overwrite] is off
    and the class already has an attribute of that name, its own or an
    inherited one.  When it succeeds, the included class is the nested
    class of that name, every other name is unchanged, and every object
    constructed from the class holds an attribute for it, under its item
    name. *)
Theorem include_under_namespace (inherited : string -> bool)
    (cls env_spec : EnvClass) (namespace : string) (overwrite : bool) :
  (Env_include inherited cls env_spec (Some namespace) overwrite = Raise ValueError
   <-> overwrite = false
       /\ (is_Some (class_get cls namespace) \/ inherited namespace = true))
  /\ (forall cls',
        Env_include inherited cls env_spec (Some namespace) overwrite = Ok cls' ->
        cfg cls' = cfg cls
        /\ class_get cls' namespace = Some (MEnv env_spec)
        /\ (forall k, k <> namespace -> class_get cls' k = class_get cls k)
        /\ (forall environ src parent inst,
              outcome (Env_init environ cls' src parent) = Ok inst ->
              is_Some (getattr inst (item_name namespace env_spec)))).
Proof.
  unfold Env_include, hasattr_class. split.
  - destruct overwrite; cbn [negb andb].
    + split; [discriminate|intros [? _]; discriminate].
    + destruct (has_key (class_dict cls) namespace) eqn:Ek; cbn [orb].
      * split; [|reflexivity]. intros _. split; [reflexivity|].
        left. apply has_key_get, Ek.
      * destruct (inherited namespace) eqn:Ei.
        -- split; [|reflexivity]. intros _. auto.
        -- split; [discriminate|]. intros [_ [H|H]]; [|discriminate].
           apply has_key_get in H. congruence.
  - intros cls' Hok. destruct (negb overwrite && _); [discriminate|].
    injection Hok as <-.
    assert (class_get (setattr_class cls namespace (MEnv env_spec)) namespace
            = Some (MEnv env_spec)) as Hns.
    { unfold class_get. cbn [setattr_class class_dict].
      rewrite assoc_get_set, String.eqb_refl. reflexivity. }
    split; [reflexivity|]. split; [exact Hns|]. split.
    + intros k Hk. unfold class_get. cbn [setattr_class class_dict].
      rewrite assoc_get_set. destruct (String.eqb_spec namespace k); congruence.
    + intros environ src parent inst Hinst.
      apply (Env_init_assigned _ _ _ _ _ namespace (MEnv env_spec) _ Hinst);
        [|reflexivity].
      apply assoc_get_elem, Hns.
Qed.

Lemma include_under_namespace_witness :
  exists cls' inst,
    Env_include (fun _ => false) Flat DB (Some "db") false = Ok cls'
    /\ outcome (Env_init ∅ cls' (Some {[ "FOO" := "1"; "DB_HOST" := "h" ]}) None) = Ok inst
    /\ is_Some (getattr inst "db").
Proof.
  destruct (include_under_namespace (fun _ => false) Flat DB "db" false) as [_ H].
  exists (setattr_class Flat "db" (MEnv DB)).
  destruct (H (setattr_class Flat "db" (MEnv DB)) eq_refl) as (_ & _ & _ & Hc).
  destruct (outcome (Env_init ∅ (setattr_class Flat "db" (MEnv DB))
                       (Some {[ "FOO" := "1"; "DB_HOST" := "h" ]}) None))
    as [inst|e] eqn:Ei.
  - exists inst. split; [reflexivity|]. split; [reflexivity|].
    exact (Hc _ _ _ _ Ei).
  - exfalso. revert Ei. vm_compute. discriminate.
Defined.

(** ** [keys] and [values] *)

(** [keys] and [values] enumerate the same members in the same order:
    paired up they are the member items of the class dictionary, and
    neither lists an entry that is not a variable, a derived variable or a
    nested class. *)
Theorem keys_values_aligned (cls : EnvClass) :
  combine (Env_keys cls) (Env_values cls)
  = List.filter (fun kv => is_member kv.2) (class_dict cls)
  /\ List.length (Env_keys cls) = List.length (Env_values cls)
  /\ Forall (fun m => m <> MOther) (Env_values cls).
Proof.
  unfold Env_keys, Env_values. destruct cls as [k d]. cbn [class_dict].
  induction d as [|[n m] d (IH1 & IH2 & IH3)]; [repeat split; constructor|].
  cbn [List.filter fmap list_fmap snd].
  destruct m; cbn [is_member List.filter fmap list_fmap fst combine List.length];
    repeat split; try (f_equal; assumption); try assumption;
    constructor; try assumption; discriminate.
Qed.

(** ** Order on names *)

Lemma ascii_compare_trans a b c :
  Ascii.compare a b = Lt -> Ascii.compare b c = Lt -> Ascii.compare a c = Lt.
Proof.
  unfold Ascii.compare. rewrite !N.compare_lt_iff. lia.
Qed.

Lemma string_compare_lt_trans a b c :
  String.compare a b = Lt -> String.compare b c = Lt -> String.compare a c = Lt.
Proof.
  revert b c. induction a as [|x a IH]; intros [|y b] [|z c]; cbn; try congruence.
  destruct (Ascii.compare x y) eqn:Exy; try discriminate.
  - apply Ascii.compare_eq_iff in Exy as ->.
    destruct (Ascii.compare y z); try congruence. apply IH.
  - intros _. destruct (Ascii.compare y z) eqn:Eyz; try discriminate.
    + apply Ascii.compare_eq_iff in Eyz as <-. rewrite Exy. reflexivity.
    + rewrite (ascii_compare_trans _ _ _ Exy Eyz). reflexivity.
Qed.

Lemma leb_negb_ltb a b : String.leb a b = negb (String.ltb b a).
Proof.
  unfold String.leb, String.ltb. rewrite (String.compare_antisym b a).
  destruct (String.compare a b); reflexivity.
Qed.

Lemma ltb_leb a b : String.ltb a b = true -> String.leb a b = true.
Proof. unfold String.ltb, String.leb. destruct (String.compare a b); congruence. Qed.

Lemma ltb_leb_trans a b c :
  String.ltb a b = true -> String.leb b c = true -> String.leb a c = true.
Proof.
  intros Hab Hbc. rewrite leb_negb_ltb in Hbc |- *.
  destruct (String.ltb c a) eqn:Hca; [|reflexivity]. exfalso.
  unfold String.ltb in *.
  destruct (String.compare a b) eqn:E1; try discriminate.
  destruct (String.compare c a) eqn:E2; try discriminate.
  rewrite (string_compare_lt_trans _ _ _ E2 E1) in Hbc. discriminate.
Qed.

Section Sorted.
Context {A : Type} (key : A -> string).

Lemma insert_by_sorted x l :
  StronglySorted (name_le key) l -> StronglySorted (name_le key) (insert_by key x l).
Proof.
  induction 1 as [|y l Hl IH Hy]; cbn; [repeat constructor|].
  destruct (String.ltb (key x) (key y)) eqn:E.
  - constructor; [constructor; assumption|].
    constructor; [apply ltb_leb, E|].
    eapply Forall_impl; [exact Hy|]. intros z Hz. eapply ltb_leb_trans; eassumption.
  - constructor; [exact IH|].
    rewrite insert_by_perm. constructor; [|exact Hy].
    unfold name_le. rewrite leb_negb_ltb, E. reflexivity.
Qed.

Lemma sorted_sorted l : StronglySorted (name_le key) (sorted key l).
Proof.
  unfold sorted.
  enough (forall acc, StronglySorted (name_le key) acc ->
                      StronglySorted (name_le key)
                        (fold_left (fun acc x => insert_by key x acc) l acc)) as H
    by (apply H; constructor).
  induction l as [|x l IH]; intros acc Hacc; [exact Hacc|].
  cbn. apply IH, insert_by_sorted, Hacc.
Qed.

End Sorted.

(** ** Help entries *)

Section Help.
Variable str_value : value -> string.
Variable union_name : list pyclass -> result string.

Lemma help_entries_Forall2 full_prefix vars entries0 entries :
  help_entries str_value union_name full_prefix vars entries0 = Ok entries ->
  exists es, entries = entries0 ++ es
             /\ Forall2 (fun v e => help_entry str_value union_name full_prefix v = Ok e)
                        vars es.
Proof.
  revert entries0. induction vars as [|v vars IH]; intros entries0 H.
  - cbn in H. injection H as <-. exists []. rewrite app_nil_r. split; constructor.
  - cbn [help_entries] in H.
    destruct (help_entry str_value union_name full_prefix v) as [e|err] eqn:E;
      [|discriminate].
    cbn in H. destruct (IH _ H) as (es & -> & Hes).
    exists (e :: es). rewrite <- app_assoc. split; [reflexivity|].
    constructor; assumption.
Qed.

Lemma help_entry_shape full_prefix v e :
  help_entry str_value union_name full_prefix v = Ok e ->
  e.1.1.1 = "``" +:+ full_prefix +:+ _normalized (EnvVariable.name v) +:+ "``"
  /\ (e.2 = "" \/ PyStr.endswith e.2 "." = true)
  /\ (truthy_str (EnvVariable.help_default v) = None ->
      EnvVariable.default v = NoDefault -> e.1.2 = "").
Proof.
  unfold help_entry.
  assert (forall (r : result string) k d h,
            (display_type ← r; Ok (k, display_type, d, h)) = Ok e ->
            e.1.1.1 = k /\ e.1.2 = d /\ e.2 = h) as Hinv.
  { intros [t|err] k d h; cbn; [|discriminate]. intros [= <-]. auto. }
  intros H. apply Hinv in H as (-> & -> & ->). clear Hinv.
  split; [reflexivity|]. split.
  - destruct (negb (String.eqb _ "") && negb (PyStr.endswith _ ".")) eqn:E.
    + right. apply endswith_append.
    + apply andb_false_iff in E as [E|E]; apply negb_false_iff in E.
      * left. apply String.eqb_eq, E.
      * right. exact E.
  - intros -> ->. reflexivity.
Qed.

Lemma help_info_false_entries (cls : EnvClass) (entries : list HelpInfo) :
  help_info str_value union_name cls false = Ok entries ->
  Forall2 (fun v e =>
             help_entry str_value union_name
               (_normalized (__prefix__ (cfg cls)) +:+ "_") v = Ok e)
          (sorted EnvVariable.name (env_variables (Env_values cls))) entries.
Proof.
  unfold help_info. destruct cls as [k d].
  cbn [class_count help_loop pop reverse rev_append cfg].
  change ("" +:+ _normalized (__prefix__ k)) with (_normalized (__prefix__ k)).
  rewrite normalized_no_trailing. cbn [negb].
  unfold add_entries.
  destruct (help_entries _ _ _ _ _) as [es|err] eqn:E; cbn; [|discriminate].
  intros [= <-].
  apply help_entries_Forall2 in E as (es' & -> & Hes). exact Hes.
Qed.

(** Without [recursive], [help_info] gives, when it succeeds, one entry
    per variable of the class, in non-decreasing order of declared name.
    The displayed key is the normalized prefix, an underscore and the
    normalized name between double backticks; the help text is empty or
    ends with a period; and a variable without default and without
    [help_default] displays an empty default. *)
Theorem help_info_one_class (cls : EnvClass) (entries : list HelpInfo) :
  help_info str_value union_name cls false = Ok entries ->
  exists vars,
    vars ≡ₚ env_variables (Env_values cls)
    /\ StronglySorted (name_le EnvVariable.name) vars
    /\ Forall2 (fun v e =>
                  e.1.1.1 = "``" +:+ _normalized (__prefix__ (cfg cls)) +:+ "_"
                                 +:+ _normalized (EnvVariable.name v) +:+ "``"
                  /\ (e.2 = "" \/ PyStr.endswith e.2 "." = true)
                  /\ (truthy_str (EnvVariable.help_default v) = None ->
                      EnvVariable.default v = NoDefault -> e.1.2 = ""))
               vars entries.
Proof.
  intros Hhelp. apply help_info_false_entries in Hhelp.
  exists (sorted EnvVariable.name (env_variables (Env_values cls))).
  split; [apply sorted_perm|]. split; [apply sorted_sorted|].
  eapply Forall2_impl; [exact Hhelp|]. intros v e He.
  destruct (help_entry_shape _ _ _ He) as (Hk & Hh & Hd).
  split; [|split; assumption]. rewrite Hk, !append_assoc. reflexivity.
Qed.

End Help.

Lemma help_info_one_class_witness :
  exists entries,
    help_info (fun _ => "") (fun _ => Ok "Union") DB false = Ok entries
    /\ List.length entries = 1%nat
    /\ Forall (fun e : HelpInfo => e.2 = "" \/ PyStr.endswith e.2 "." = true) entries.
Proof.
  destruct (help_info (fun _ => "") (fun _ => Ok "Union") DB false) as [entries|e] eqn:E;
    [|exfalso; revert E; vm_compute; discriminate].
  destruct (help_info_one_class (fun _ => "") (fun _ => Ok "Union") DB entries E)
    as (vars & Hperm & _ & Hall).
  exists entries. split; [reflexivity|]. split.
  - rewrite <- (Forall2_length _ _ _ Hall), Hperm. reflexivity.
  - clear Hperm E. induction Hall as [|v e vars entries (_ & Hh & _) _ IH];
      constructor; assumption.
Defined.

Section HelpAll.
Variable str_value : value -> string.
Variable union_name : list pyclass -> result string.
Hypothesis union_named : forall args, exists n, union_name args = Ok n.






End HelpAll.


(** ** Sets and dictionaries built from the pieces *)

Lemma existsb_key_eq_str s acc :
  existsb (Builtins.key_eq (VStr s)) (VStr <$> acc) = bool_decide (s ∈ acc).
Proof.
  induction acc as [|t acc IH]; [reflexivity|].
  change (VStr <$> t :: acc) with (VStr t :: (VStr <$> acc)).
  cbn [existsb]. rewrite IH.
  change (Builtins.key_eq (VStr s) (VStr t)) with (String.eqb s t).
  destruct (String.eqb_spec s t) as [->|Hne].
  - cbn. symmetry. apply bool_decide_eq_true. apply list_elem_of_here.
  - cbn. apply bool_decide_ext. rewrite elem_of_cons. tauto.
Qed.

Lemma set_add_str acc s :
  Builtins.set_add (VStr <$> acc) (VStr s) = VStr <$> add_new acc s.
Proof.
  unfold Builtins.set_add, add_new. rewrite existsb_key_eq_str.
  destruct (decide (s ∈ acc)) as [Hin|Hnin].
  - rewrite bool_decide_eq_true_2 by assumption. reflexivity.
  - rewrite bool_decide_eq_false_2 by assumption. rewrite fmap_app. reflexivity.
Qed.

Lemma collect_set_strings items acc :
  Builtins.collect_set (fun s => Ok (VStr s)) items (VStr <$> acc)
  = Ok (VStr <$> fold_left add_new items acc).
Proof.
  revert acc. induction items as [|s items IH]; intros acc; [reflexivity|].
  cbn. rewrite set_add_str. apply IH.
Qed.

Lemma fold_add_new_spec items acc :
  NoDup acc ->
  NoDup (fold_left add_new items acc)
  /\ forall s, s ∈ fold_left add_new items acc <-> s ∈ acc \/ s ∈ items.
Proof.
  revert acc. induction items as [|t items IH]; intros acc Hnd.
  - split; [exact Hnd|]. intros s. rewrite elem_of_nil. tauto.
  - cbn [fold_left]. unfold add_new at 2 4.
    destruct (decide (t ∈ acc)) as [Hin|Hnin].
    + destruct (IH acc Hnd) as [H1 H2]. split; [exact H1|].
      intros s. rewrite H2, elem_of_cons. split; [tauto|].
      intros [?|[->|?]]; auto.
    + assert (NoDup (acc ++ [t])) as Hnd'.
      { apply NoDup_app. split; [exact Hnd|]. split; [|apply NoDup_singleton].
        intros x Hx Hx'. apply list_elem_of_singleton in Hx'. subst. contradiction. }
      destruct (IH _ Hnd') as [H1 H2]. split; [exact H1|].
      intros s. rewrite H2, elem_of_app, list_elem_of_singleton, elem_of_cons. tauto.
Qed.

(** A set-typed variable without custom parser and without map yields the
    distinct pieces of the raw string: every piece occurs, once. *)
Theorem set_coercion_distinct (self : EnvVariable.t) (env : instance)
    (prefix raw : string) :
  EnvVariable.type self = TCls CSet ->
  EnvVariable.parser self = None ->
  EnvVariable.map self = None ->
  __item_separator__ (cls_settings env) <> "" ->
  raw_value self env prefix = Some raw ->
  exists xs,
    outcome (_retrieve self env prefix) = Ok (VSet (VStr <$> xs))
    /\ NoDup xs
    /\ forall s, s ∈ xs
                 <-> s ∈ PyStr.split_go (__item_separator__ (cls_settings env)) raw 0 None.
Proof.
  intros Ht Hp Hm Hsep Hraw. rewrite retrieve_outcome, Hraw.
  rewrite (coerce_set _ _ _ Hp Ht Hm Hsep).
  change (@nil value) with (VStr <$> (@nil string)). rewrite collect_set_strings.
  destruct (fold_add_new_spec
              (PyStr.split_go (__item_separator__ (cls_settings env)) raw 0 None) [])
    as [H1 H2]; [constructor|].
  eexists. split; [reflexivity|]. split; [exact H1|].
  intros s. rewrite H2, elem_of_nil. tauto.
Qed.

Lemma set_coercion_distinct_witness :
  exists xs,
    outcome (_retrieve (var (TCls CSet) "s" NoDefault) (env_over {[ "S" := "a,b,a" ]}) "")
    = Ok (VSet (VStr <$> xs))
    /\ NoDup xs /\ "a" ∈ xs.
Proof.
  assert (raw_value (var (TCls CSet) "s" NoDefault) (env_over {[ "S" := "a,b,a" ]}) ""
          = Some "a,b,a") as Hraw by (vm_compute; reflexivity).
  destruct (set_coercion_distinct (var (TCls CSet) "s" NoDefault)
              (env_over {[ "S" := "a,b,a" ]}) "" "a,b,a" eq_refl eq_refl eq_refl
              ltac:(discriminate) Hraw) as (xs & H & Hnd & Hin).
  exists xs. split; [exact H|]. split; [exact Hnd|].
  apply Hin. apply list_elem_of_here.
Defined.

Lemma assoc_set_keys {V : Type} (d : list (string * V)) k v :
  (Builtins.assoc_set String.eqb d k v).*1
  = if decide (k ∈ d.*1) then d.*1 else d.*1 ++ [k].
Proof.
  induction d as [|[k0 v0] d IH]; [reflexivity|]. cbn.
  destruct (String.eqb_spec k0 k) as [->|Hne]; cbn.
  - rewrite decide_True by apply list_elem_of_here. reflexivity.
  - rewrite IH. destruct (decide (k ∈ d.*1)) as [Hin|Hnin].
    + rewrite decide_True by (apply list_elem_of_further, Hin). reflexivity.
    + rewrite decide_False; [reflexivity|].
      intros H. apply elem_of_cons in H as [->|H]; [congruence|contradiction].
Qed.

Lemma assoc_set_keys_NoDup {V : Type} (d : list (string * V)) k v :
  NoDup d.*1 -> NoDup (Builtins.assoc_set String.eqb d k v).*1.
Proof.
  intros Hnd. rewrite assoc_set_keys. destruct (decide (k ∈ d.*1)); [exact Hnd|].
  apply NoDup_app. split; [exact Hnd|]. split; [|apply NoDup_singleton].
  intros x Hx Hx'. apply list_elem_of_singleton in Hx'. subst. contradiction.
Qed.

Lemma assoc_set_elem {V : Type} (d : list (string * V)) k v k' v' :
  (k', v') ∈ Builtins.assoc_set String.eqb d k v ->
  (k', v') = (k, v) \/ (k', v') ∈ d.
Proof.
  induction d as [|[k0 v0] d IH]; cbn.
  - intros H. apply list_elem_of_singleton in H. auto.
  - destruct (String.eqb_spec k0 k) as [->|Hne]; intros H;
      apply elem_of_cons in H as [H|H].
    + auto.
    + right. apply list_elem_of_further, H.
    + right. rewrite H. apply list_elem_of_here.
    + destruct (IH H) as [?|?]; [auto|]. right. apply list_elem_of_further. assumption.
Qed.

Lemma dict_of_items_spec vsep items d0 d :
  vsep <> "" ->
  dict_of_items vsep items d0 = Ok d ->
  NoDup d0.*1 ->
  NoDup d.*1
  /\ forall k v, (k, v) ∈ d -> (k, v) ∈ d0 \/ (k +:+ vsep +:+ v) ∈ items.
Proof.
  intros Hsep. revert d0. induction items as [|item items IH]; intros d0 H Hnd.
  - cbn in H. injection H as <-. auto.
  - cbn [dict_of_items] in H. rewrite split_nonempty_sep in H by assumption.
    cbn [mbind result_bind rbind] in H.
    destruct (PyStr.split_go vsep item 0 (Some 1%nat)) as [|k [|v [|w l]]] eqn:E;
      try discriminate.
    destruct (IH _ H (assoc_set_keys_NoDup _ k v Hnd)) as [H1 H2].
    split; [exact H1|]. intros k' v' Hin.
    destruct (H2 k' v' Hin) as [Hin'|Hin']; [|right; apply list_elem_of_further, Hin'].
    apply assoc_set_elem in Hin' as [[= -> ->]|Hin']; [|auto].
    right. pose proof (split_go_concat vsep item 0 (Some 1%nat) Hsep) as Hc.
    rewrite E in Hc. cbn in Hc. rewrite Hc. apply list_elem_of_here.
Qed.

(** A dict-typed variable without custom parser and without map yields,
    when it succeeds, a mapping from strings to strings in which every key
    occurs once and every entry is what one piece of the raw string splits
    into. *)
Theorem dict_coercion_entries (self : EnvVariable.t) (env : instance)
    (prefix raw : string) (v : value) :
  EnvVariable.type self = TCls CDict ->
  EnvVariable.parser self = None ->
  EnvVariable.map self = None ->
  __item_separator__ (cls_settings env) <> "" ->
  raw_value self env prefix = Some raw ->
  outcome (_retrieve self env prefix) = Ok v ->
  exists d,
    v = str_dict d
    /\ NoDup d.*1
    /\ forall k x,
         (k, x) ∈ d ->
         (k +:+ __value_separator__ (cls_settings env) +:+ x)
           ∈ PyStr.split_go (__item_separator__ (cls_settings env)) raw 0 None.
Proof.
  intros Ht Hp Hm Hsep Hraw. rewrite retrieve_outcome, Hraw.
  rewrite (coerce_dict _ _ _ Hp Ht Hsep), Hm.
  destruct (dict_of_items _ _ _) as [d|e] eqn:E; cbn; [|discriminate].
  intros [= <-]. exists d. split; [reflexivity|].
  assert (__value_separator__ (cls_settings env) <> "") as Hvsep.
  { intros Hv. rewrite Hv in E.
    destruct (PyStr.split_go (__item_separator__ (cls_settings env)) raw 0 None) eqn:Es.
    - exact (split_go_nonempty _ _ _ _ Es).
    - cbn in E. discriminate. }
  destruct (dict_of_items_spec _ _ _ _ Hvsep E) as [H1 H2]; [constructor|].
  split; [exact H1|]. intros k x Hin.
  destruct (H2 k x Hin) as [Hnil|?]; [inversion Hnil|assumption].
Qed.

Lemma dict_coercion_entries_witness :
  exists d,
    outcome (_retrieve (var (TCls CDict) "d" NoDefault)
               (env_over {[ "D" := "a:1,b:3,a:2" ]}) "") = Ok (str_dict d)
    /\ NoDup d.*1.
Proof.
  assert (raw_value (var (TCls CDict) "d" NoDefault)
            (env_over {[ "D" := "a:1,b:3,a:2" ]}) "" = Some "a:1,b:3,a:2") as Hraw
    by (vm_compute; reflexivity).
  assert (outcome (_retrieve (var (TCls CDict) "d" NoDefault)
                     (env_over {[ "D" := "a:1,b:3,a:2" ]}) "")
          = Ok (VDict [(VStr "a", VStr "2"); (VStr "b", VStr "3")])) as Hout
    by (vm_compute; reflexivity).
  destruct (dict_coercion_entries (var (TCls CDict) "d" NoDefault)
              (env_over {[ "D" := "a:1,b:3,a:2" ]}) "" "a:1,b:3,a:2"
              (VDict [(VStr "a", VStr "2"); (VStr "b", VStr "3")])
              eq_refl eq_refl eq_refl ltac:(discriminate) Hraw Hout)
    as (d & Hd & Hnd & _).
  exists d. split; [rewrite Hout, Hd; reflexivity|exact Hnd].
Defined.

(** ** Values of a constructed object *)

Lemma init_checked type name parser validator map default deprecations
    help help_type help_default self :
  EnvVariable_init type name parser validator map default deprecations
    help help_type help_default = Ok self ->
  default_checked self.
Proof.
  rewrite declaration_check.
  destruct (match type with TCls _ => _ | TUnion _ => _ end) eqn:Hchk; [|discriminate].
  intros [= <-]. unfold default_checked. cbn.
  destruct default as [|d]; [exact I|]. destruct type; exact Hchk.
Qed.

Lemma call_check_type self env prefix x :
  default_checked self ->
  outcome (EnvVariable_call self env prefix) = Ok x ->
  _check_type x (EnvVariable.type self) = true.
Proof.
  intros Hdef Hcall. unfold EnvVariable_call in Hcall.
  apply outcome_bind_inv in Hcall as (y & Hy & Hv).
  assert (y = x) as ->.
  { destruct (EnvVariable.validator self) as [f|]; cbn in Hv.
    - destruct (f y) as [[]|e]; cbn in Hv; congruence.
    - congruence. }
  rewrite retrieve_outcome in Hy.
  destruct (raw_value self env prefix) as [raw|].
  - apply coerce_check_type in Hy. exact Hy.
  - unfold default_checked in Hdef.
    destruct (EnvVariable.default self) as [|d]; [discriminate|].
    injection Hy as <-. exact Hdef.
Qed.

Lemma derived_check_type d env x :
  DerivedVariable_call d env = Ok x -> _check_type x (DerivedVariable.type d) = true.
Proof.
  unfold DerivedVariable_call. destruct (DerivedVariable.derivation d env) as [y|e]; cbn;
    [|discriminate].
  destruct (_check_type y (DerivedVariable.type d)) eqn:E; cbn; [|discriminate].
  intros [= <-]. exact E.
Qed.

Lemma getattr_setattr_ne i n a n' : n <> n' -> getattr (setattr i n a) n' = getattr i n'.
Proof. intros H. rewrite getattr_setattr. destruct (String.eqb_spec n n'); congruence. Qed.

Lemma first_pass_untouched construct items self s1 n :
  outcome (first_pass construct items self) = Ok s1 ->
  n ∉ first_names items -> getattr s1 n = getattr self n.
Proof.
  revert self. induction items as [|[n0 m0] items IH]; intros self H Hn.
  - cbn in H. injection H as <-. reflexivity.
  - destruct m0 as [v|e|dv|]; cbn [first_pass] in H; cbn in Hn.
    + apply outcome_bind_inv in H as (x & _ & H).
      apply not_elem_of_cons in Hn as [Hne Hn].
      rewrite (IH _ H Hn). apply getattr_setattr_ne. congruence.
    + apply outcome_bind_inv in H as (x & _ & H).
      apply not_elem_of_cons in Hn as [Hne Hn].
      rewrite (IH _ H Hn). apply getattr_setattr_ne. congruence.
    + apply IH; assumption.
    + apply IH; assumption.
Qed.

Lemma init_derived_untouched derived self inst n :
  outcome (init_derived derived self) = Ok inst ->
  n ∉ derived.*1 -> getattr inst n = getattr self n.
Proof.
  revert self. induction derived as [|[n0 d0] derived IH]; intros self H Hn.
  - cbn in H. injection H as <-. reflexivity.
  - cbn [init_derived] in H. apply outcome_bind_inv in H as (x & _ & H).
    cbn in Hn. apply not_elem_of_cons in Hn as [Hne Hn].
    rewrite (IH _ H Hn). apply getattr_setattr_ne. congruence.
Qed.

Lemma first_pass_typed construct items self s1 name v :
  outcome (first_pass construct items self) = Ok s1 ->
  NoDup (first_names items) ->
  (name, MVar v) ∈ items ->
  default_checked v ->
  exists x, getattr s1 name = Some (AVal x)
            /\ _check_type x (EnvVariable.type v) = true.
Proof.
  revert self. induction items as [|[n0 m0] items IH]; intros self H Hnd Hin Hdef.
  - inversion Hin.
  - apply elem_of_cons in Hin as [Heq|Hin].
    + injection Heq as <- <-. cbn [first_pass] in H. cbn in Hnd.
      apply NoDup_cons in Hnd as [Hnot _].
      apply outcome_bind_inv in H as (x & Hx & H).
      exists x. split; [|eapply call_check_type; eassumption].
      rewrite (first_pass_untouched _ _ _ _ _ H Hnot), getattr_setattr, String.eqb_refl.
      reflexivity.
    + destruct m0 as [v0|e0|d0|]; cbn [first_pass] in H; cbn in Hnd.
      * apply NoDup_cons in Hnd as [_ Hnd].
        apply outcome_bind_inv in H as (x & _ & H). eapply IH; eassumption.
      * apply NoDup_cons in Hnd as [_ Hnd].
        apply outcome_bind_inv in H as (x & _ & H). eapply IH; eassumption.
      * eapply IH; eassumption.
      * eapply IH; eassumption.
Qed.

Lemma init_derived_typed derived self inst n d :
  outcome (init_derived derived self) = Ok inst ->
  NoDup derived.*1 ->
  (n, d) ∈ derived ->
  exists x, getattr inst n = Some (AVal x)
            /\ _check_type x (DerivedVariable.type d) = true.
Proof.
  revert self. induction derived as [|[n0 d0] derived IH]; intros self H Hnd Hin.
  - inversion Hin.
  - cbn [init_derived] in H. cbn in Hnd. apply NoDup_cons in Hnd as [Hnot Hnd].
    destruct (DerivedVariable_call d0 self) as [x|e] eqn:Ex;
      [|cbn in H; discriminate].
    rewrite (outcome_bind_ok _ _ x) in H by reflexivity.
    apply elem_of_cons in Hin as [Heq|Hin].
    + injection Heq as <- <-. exists x. split; [|eapply derived_check_type, Ex].
      rewrite (init_derived_untouched _ _ _ _ H Hnot), getattr_setattr, String.eqb_refl.
      reflexivity.
    + eapply IH; eassumption.
Qed.

Lemma attr_names_split items :
  attr_names items ≡ₚ first_names items ++ (derived_members items).*1.
Proof.
  unfold attr_names, first_names, derived_members.
  induction items as [|[n m] items IH]; [reflexivity|].
  destruct m as [v|e|d|]; cbn.
  - rewrite IH. reflexivity.
  - rewrite IH. reflexivity.
  - rewrite IH. apply Permutation_middle.
  - exact IH.
Qed.

Lemma first_names_elem name v items : (name, MVar v) ∈ items -> name ∈ first_names items.
Proof.
  intros Hin. unfold first_names. apply list_elem_of_omap.
  exists (name, MVar v). split; [assumption|reflexivity].
Qed.

(** In a class whose members are assigned to distinct attributes and whose
    variables passed the declaration check, every variable and every
    derived variable of a constructed object holds a value that satisfies
    its declared type. *)
Theorem constructed_values_typed (environ : gmap string string) (cls : EnvClass)
    (src : option (gmap string string)) (parent : option instance) (inst : instance) :
  outcome (Env_init environ cls src parent) = Ok inst ->
  NoDup (attr_names (class_dict cls)) ->
  (forall name v, (name, MVar v) ∈ class_dict cls -> default_checked v) ->
  (forall name v,
     (name, MVar v) ∈ class_dict cls ->
     exists x, getattr inst name = Some (AVal x)
               /\ _check_type x (EnvVariable.type v) = true)
  /\ (forall name d,
        (name, MDer d) ∈ class_dict cls ->
        exists x, getattr inst name = Some (AVal x)
                  /\ _check_type x (DerivedVariable.type d) = true).
Proof.
  intros Hinst Hnd Hdef. rewrite Env_init_two_phase in Hinst.
  apply outcome_bind_inv in Hinst as (self1 & H1 & H2).
  rewrite attr_names_split in Hnd. apply NoDup_app in Hnd as (Hnd1 & Hdisj & Hnd2).
  split.
  - intros name v Hin.
    destruct (first_pass_typed _ _ _ _ _ _ H1 Hnd1 Hin (Hdef _ _ Hin)) as (x & Hx & Hc).
    exists x. split; [|exact Hc].
    rewrite (init_derived_untouched _ _ _ _ H2); [exact Hx|].
    apply Hdisj. eapply first_names_elem, Hin.
  - intros name d Hin.
    apply (init_derived_typed _ _ _ _ _ H2 Hnd2). apply derived_members_elem, Hin.
Qed.

Lemma constructed_values_typed_witness :
  exists inst x,
    outcome (Env_init ∅ Service (Some {[ "SVC_PORT" := "8080"; "SVC_DB_HOST" := "h" ]}) None)
    = Ok inst
    /\ getattr inst "next_port" = Some (AVal x)
    /\ _check_type x (TCls CInt) = true.
Proof.
  set (src := ({[ "SVC_PORT" := "8080"; "SVC_DB_HOST" := "h" ]} : gmap string string)).
  destruct (outcome (Env_init ∅ Service (Some src) None)) as [inst|e] eqn:E;
    [|exfalso; revert E; vm_compute; discriminate].
  assert (NoDup (attr_names (class_dict Service))) as Hnd.
  { apply (bool_decide_unpack _). vm_compute. exact I. }
  assert (forall name v, (name, MVar v) ∈ class_dict Service -> default_checked v) as Hdef.
  { intros name v Hin. unfold Service in Hin. cbn [class_dict] in Hin.
    repeat (apply elem_of_cons in Hin as [Hin|Hin];
            [try discriminate; injection Hin as -> ->; exact I|]).
    inversion Hin. }
  destruct (constructed_values_typed ∅ Service (Some src) None inst E Hnd Hdef) as [_ H].
  destruct (H "next_port" (DerivedVariable.Make (TCls CInt) port_plus_one)
              ltac:(apply list_elem_of_here)) as (x & Hx & Hc).
  exists inst, x. split; [reflexivity|]. split; assumption.
Defined.

(** ** Displayed keys and looked-up keys *)

Lemma env_variables_elem v cls :
  v ∈ env_variables (Env_values cls) -> exists name, (name, MVar v) ∈ class_dict cls.
Proof.
  unfold env_variables, Env_values. intros H.
  apply list_elem_of_omap in H as (m & Hm & Hv). destruct m; try discriminate.
  injection Hv as ->. apply list_elem_of_In, List.filter_In in Hm as [Hm _].
  apply list_elem_of_In, list_elem_of_fmap in Hm as ([name m] & Hm & Hin).
  cbn in Hm. subst m. eauto.
Qed.

Lemma Env_init_lookup environ cls src parent inst name v :
  outcome (Env_init environ cls src parent) = Ok inst ->
  (name, MVar v) ∈ class_dict cls ->
  EvGet (init_full_prefix parent (__prefix__ (cfg cls)) +:+ _normalized (EnvVariable.name v))
    ∈ events (Env_init environ cls src parent).
Proof.
  intros Hinst Hin. pose proof Hinst as Hinst'.
  rewrite Env_init_two_phase in Hinst' |- *.
  apply outcome_bind_inv in Hinst' as (self1 & H1 & _).
  rewrite (events_bind_ok _ _ _ H1). apply elem_of_app. left.
  exact (first_pass_lookups _ _ _ _ _ _ H1 Hin).
Qed.

(** For a class whose normalized prefix is not empty, the key that
    [help_info] displays for a variable is, between the backticks, the key
    under which the construction of a top-level object looks the variable
    up. *)
Theorem displayed_key_is_looked_up (str_value : value -> string)
    (union_name : list pyclass -> result string) (cls : EnvClass)
    (entries : list HelpInfo) :
  _normalized (__prefix__ (cfg cls)) <> "" ->
  help_info str_value union_name cls false = Ok entries ->
  exists vars,
    vars ≡ₚ env_variables (Env_values cls)
    /\ Forall2 (fun v e =>
                  let key := init_full_prefix None (__prefix__ (cfg cls))
                               +:+ _normalized (EnvVariable.name v) in
                  e.1.1.1 = "``" +:+ key +:+ "``"
                  /\ forall environ src inst,
                       outcome (Env_init environ cls src None) = Ok inst ->
                       EvGet key ∈ events (Env_init environ cls src None))
               vars entries.
Proof.
  intros Hne Hhelp. apply help_info_false_entries in Hhelp.
  exists (sorted EnvVariable.name (env_variables (Env_values cls))).
  split; [apply sorted_perm|].
  assert (init_full_prefix None (__prefix__ (cfg cls))
          = _normalized (__prefix__ (cfg cls)) +:+ "_") as Hp.
  { unfold init_full_prefix.
    change ("" +:+ _normalized (__prefix__ (cfg cls)))
      with (_normalized (__prefix__ (cfg cls))).
    rewrite normalized_no_trailing.
    destruct (String.eqb_spec (_normalized (__prefix__ (cfg cls))) ""); [contradiction|].
    reflexivity. }
  assert (Forall (fun v => exists name, (name, MVar v) ∈ class_dict cls)
            (sorted EnvVariable.name (env_variables (Env_values cls)))) as Hvars.
  { apply Forall_forall. intros v Hv. apply env_variables_elem.
    rewrite <- (sorted_perm EnvVariable.name). exact Hv. }
  induction Hhelp as [|v e vars entries He _ IH]; [constructor|].
  apply Forall_cons in Hvars as [(name & Hin) Hvars].
  constructor; [|apply IH, Hvars]. cbn zeta. split.
  - destruct (help_entry_shape _ _ _ _ _ He) as (Hk & _).
    rewrite Hk, Hp, !append_assoc. reflexivity.
  - intros environ src inst Hinst. exact (Env_init_lookup _ _ _ _ _ _ _ Hinst Hin).
Qed.

Lemma displayed_key_is_looked_up_witness :
  exists entries,
    help_info (fun _ => "") (fun _ => Ok "Union") DB false = Ok entries
    /\ Forall (fun e : HelpInfo => e.1.1.1 = "``DB_HOST``") entries.
Proof.
  destruct (help_info (fun _ => "") (fun _ => Ok "Union") DB false) as [entries|e] eqn:E;
    [|exfalso; revert E; vm_compute; discriminate].
  destruct (displayed_key_is_looked_up (fun _ => "") (fun _ => Ok "Union") DB entries
              ltac:(vm_compute; discriminate) E) as (vars & Hperm & Hall).
  exists entries. split; [reflexivity|].
  apply Permutation_singleton_r in Hperm. subst vars.
  inversion Hall as [|? ? ? ? [Hk _] Hnil]; subst. inversion Hnil; subst.
  constructor; [exact Hk|constructor].
Defined.
